(** * Technical-indicator engine of the trading advisor

    A shallow embedding of [agent/skills/trading_advisor/technical_analysis.py]
    (simple and exponential moving averages, RSI, MACD, Bollinger bands and the
    aggregating [compute_indicators]) together with the properties its
    specification states about it.

    Python values are modelled as follows.
    - [int] is [Z]; [len], [range], slices and negative indices follow Python.
    - [float] is an abstract carrier [F] with the operations the module uses
      (class [PyFloat]).  Everything that only depends on the shape of the
      computation is proved for every carrier.  Numeric facts are proved for
      the carrier [Q] of exact rationals ([exact_float]): arithmetic there is
      the real-number arithmetic that binary64 approximates, [round] is
      rounding to a decimal position with ties to even, and the square root
      is a parameter; NaN, infinities, overflow and rounding error have no
      counterpart in that carrier.  What rounding error changes is decided
      on the carrier [binary64]: IEEE 754 binary64 itself, with the
      operations of CPython's [float].
    - [Optional[float]] is [option F], a [dict] with fixed keys is a record.
    - An exception is a value [Raise e] of the result type [res].

    The development also embeds the caller of the engine in
    [agent/skills/chart_generator/chart_builder.py]: [build_technical_chart]
    with [_dark_layout].  The Plotly specification it returns is a value of
    the type [json], a dict being the list of its items in insertion order;
    the history that [get_historical_data] fetched is an argument, and so is
    [str.upper]. *)

From Stdlib Require Import ZArith QArith Qround Qabs Lia Lqa String.
From Stdlib Require PrimFloat FloatOps SpecFloat.
From stdpp Require Import base tactics option list pretty.

Local Open Scope Z_scope.

(** ** Exceptions and results *)

Inductive exn : Set :=
| ZeroDivisionError
| IndexError
| OverflowError
| ValueError.

Inductive res (A : Type) : Type :=
| Ok (a : A)
| Raise (e : exn).
Arguments Ok {A} a.
Arguments Raise {A} e.

#[global] Instance res_ret : MRet res := fun A a => Ok a.
#[global] Instance res_bind : MBind res := fun A B f m =>
  match m with
  | Ok a => f a
  | Raise e => Raise e
  end.
#[global] Instance res_fmap : FMap res := fun A B f m =>
  match m with
  | Ok a => Ok (f a)
  | Raise e => Raise e
  end.

(** A list comprehension (or a loop that only appends) whose body may raise:
    the first exception ends the evaluation. *)
Fixpoint for_each {A B} (f : A -> res B) (l : list A) : res (list B) :=
  match l with
  | [] => Ok []
  | x :: l' => y ← f x; ys ← for_each f l'; Ok (y :: ys)
  end.

(** A loop that threads a state through its iterations. *)
Fixpoint for_fold {A S} (f : S -> A -> res S) (s : S) (l : list A) : res S :=
  match l with
  | [] => Ok s
  | x :: l' => s' ← f s x; for_fold f s' l'
  end.

(** ** Python sequences *)

Definition len {A} (l : list A) : Z := Z.of_nat (length l).

(** [range(a, b)] *)
Definition range (a b : Z) : list Z := seqZ a (b - a).

(** A slice bound [i] of a sequence of length [n]: negative bounds count from
    the end, and every bound is clamped to [0..n]. *)
Definition clamp_index (n i : Z) : Z :=
  if i <? 0 then Z.max (i + n) 0 else Z.min i n.

(** [l[lo:hi]]; [None] is an omitted bound. *)
Definition pyslice {A} (l : list A) (lo hi : option Z) : list A :=
  let n := len l in
  let a := from_option (clamp_index n) 0 lo in
  let b := from_option (clamp_index n) n hi in
  take (Z.to_nat (b - a)) (drop (Z.to_nat a) l).

(** [l[i]]: a negative index counts from the end; out of range raises. *)
Definition py_getitem {A} (l : list A) (i : Z) : res A :=
  let j := if i <? 0 then i + len l else i in
  if j <? 0 then Raise IndexError
  else match l !! Z.to_nat j with
       | Some x => Ok x
       | None => Raise IndexError
       end.

(** [[x] * k]: no element when [k <= 0]. *)
Definition pyrepeat {A} (x : A) (k : Z) : list A := replicate (Z.to_nat k) x.

(** [next((v for v in it if v is not None), None)] *)
Fixpoint next_not_none {A} (it : list (option A)) : option A :=
  match it with
  | [] => None
  | Some v :: _ => Some v
  | None :: it' => next_not_none it'
  end.

(** ** The float interface *)

Class PyFloat (F : Type) := {
  of_Z : Z -> F;                 (* an int literal or int operand, as a float *)
  fadd : F -> F -> F;
  fsub : F -> F -> F;
  fmul : F -> F -> F;
  fquot : F -> F -> F;           (* the quotient, for a divisor that is not zero *)
  fneg : F -> F;
  feqb : F -> F -> bool;         (* == *)
  fltb : F -> F -> bool;         (* < *)
  fsquare : F -> res F;          (* x ** 2, OverflowError out of range *)
  msqrt : F -> res F;            (* math.sqrt, ValueError below zero *)
  fround : Z -> F -> F;          (* round(x, ndigits) *)
  fmt1 : F -> string             (* format(x, ".1f") *)
}.

(** The result records of the module: Python dicts with fixed keys. *)
Module Macd.
Record t (F : Type) : Type := mk {
  macd : list F;
  signal : list F;
  histogram : list F
}.
Arguments mk {F}.
Arguments macd {F}.
Arguments signal {F}.
Arguments histogram {F}.
End Macd.

Module Bands.
Record t (F : Type) : Type := mk {
  upper : list F;
  middle : list F;
  lower : list F
}.
Arguments mk {F}.
Arguments upper {F}.
Arguments middle {F}.
Arguments lower {F}.
End Bands.

Module Latest.
Record t (F : Type) : Type := mk {
  close : F;
  rsi : option F;
  macd : option F;
  macd_signal : option F;
  macd_histogram : option F;
  sma_20 : option F;
  sma_50 : option F;
  sma_200 : option F;
  bb_upper : option F;
  bb_lower : option F;
  trend : string;
  trend_30d_pct : F
}.
Arguments mk {F}.
Arguments close {F}.
Arguments rsi {F}.
Arguments macd {F}.
Arguments macd_signal {F}.
Arguments macd_histogram {F}.
Arguments sma_20 {F}.
Arguments sma_50 {F}.
Arguments sma_200 {F}.
Arguments bb_upper {F}.
Arguments bb_lower {F}.
Arguments trend {F}.
Arguments trend_30d_pct {F}.
End Latest.

Module Summary.
Record t (F : Type) : Type := mk {
  rsi : list (option F);
  macd : Macd.t F;
  bollinger_bands : Bands.t F;
  sma_20 : list (option F);
  sma_50 : list (option F);
  sma_200 : list (option F);
  latest : Latest.t F;
  signals : list string;
  data_points : Z
}.
Arguments mk {F}.
Arguments rsi {F}.
Arguments macd {F}.
Arguments bollinger_bands {F}.
Arguments sma_20 {F}.
Arguments sma_50 {F}.
Arguments sma_200 {F}.
Arguments latest {F}.
Arguments signals {F}.
Arguments data_points {F}.
End Summary.

(** ** The module, for any float carrier *)

Section Engine.
Context {F : Type} `{PyFloat F}.

Definition zero : F := of_Z 0.

(** [x / y] for floats: a zero divisor raises. *)
Definition pydiv (x y : F) : res F :=
  if feqb y zero then Raise ZeroDivisionError else Ok (fquot x y).

(** [x / n] for an int [n]: the divisor is zero exactly when [n] is. *)
Definition pydiv_int (x : F) (n : Z) : res F :=
  if n =? 0 then Raise ZeroDivisionError else Ok (fquot x (of_Z n)).

(** [sum(xs)]: left to right from the int 0. *)
Definition pysum (xs : list F) : F := foldl fadd zero xs.

(** [max(a, b)]: the first argument unless the second is greater. *)
Definition pymax (a b : F) : F := if fltb a b then b else a.

(** Truth value of a float: it is not zero. *)
Definition truthy (x : F) : bool := negb (feqb x zero).

(** The body of the loop of [_ema]: [prev] is [ema[-1]], the value appended
    last. *)
Fixpoint ema_loop (k prev : F) (ps : list F) : list F :=
  match ps with
  | [] => []
  | p :: ps' =>
      let e := fadd (fmul p k) (fmul prev (fsub (of_Z 1) k)) in
      e :: ema_loop k e ps'
  end.

Definition _ema (prices : list F) (period : Z) : res (list F) :=
  if len prices <? period then Ok []
  else
    k ← pydiv_int (of_Z 2) (period + 1);
    seed ← pydiv_int (pysum (pyslice prices None (Some period))) period;
    Ok (seed :: ema_loop k seed (pyslice prices (Some period) None)).

Definition sma_at (prices : list F) (period i : Z) : res F :=
  pydiv_int (pysum (pyslice prices (Some (i - period + 1)) (Some (i + 1)))) period.

Definition _sma (prices : list F) (period : Z) : res (list (option F)) :=
  let result := pyrepeat None (period - 1) in
  tail ← for_each (fun i => Some <$> sma_at prices period i)
                  (range (period - 1) (len prices));
  Ok (result ++ tail).

(** The nested function [_rsi] of [compute_rsi]. *)
Definition _rsi (ag al : F) : res F :=
  if feqb ag zero && feqb al zero then Ok (of_Z 50)
  else if feqb al zero then Ok (of_Z 100)
  else
    rs ← pydiv ag al;
    q ← pydiv (of_Z 100) (fadd (of_Z 1) rs);
    Ok (fround 2 (fsub (of_Z 100) q)).

(** One iteration of the first loop of [compute_rsi]: the pair appended to
    [gains] and [losses]. *)
Definition gain_loss (close : list F) (i : Z) : res (F * F) :=
  ci ← py_getitem close i;
  cp ← py_getitem close (i - 1);
  let delta := fsub ci cp in
  Ok (pymax delta zero, pymax (fneg delta) zero).

(** One Wilder update of a running average. *)
Definition wilder (avg : F) (period : Z) (x : F) : res F :=
  pydiv_int (fadd (fmul avg (of_Z (period - 1))) x) period.

(** One iteration of the second loop: the state is
    [(avg_gain, avg_loss, rsi_values)]. *)
Definition rsi_step (gains losses : list F) (period : Z)
    (st : F * F * list (option F)) (i : Z) : res (F * F * list (option F)) :=
  let '(avg_gain, avg_loss, rsi_values) := st in
  g ← py_getitem gains i;
  avg_gain' ← wilder avg_gain period g;
  l ← py_getitem losses i;
  avg_loss' ← wilder avg_loss period l;
  r ← _rsi avg_gain' avg_loss';
  Ok (avg_gain', avg_loss', rsi_values ++ [Some r]).

Definition compute_rsi (close : list F) (period : Z) : res (list (option F)) :=
  if len close <? period + 1 then Ok (pyrepeat None (len close))
  else
    gl ← for_each (gain_loss close) (range 1 (len close));
    let gains := gl.*1 in
    let losses := gl.*2 in
    avg_gain ← pydiv_int (pysum (pyslice gains None (Some period))) period;
    avg_loss ← pydiv_int (pysum (pyslice losses None (Some period))) period;
    let rsi_values := pyrepeat None period in
    r ← _rsi avg_gain avg_loss;
    st ← for_fold (rsi_step gains losses period)
                  (avg_gain, avg_loss, rsi_values ++ [Some r])
                  (range period (len gains));
    Ok st.2.

Definition compute_macd (close : list F) (fast slow signal : Z) : res (Macd.t F) :=
  if len close <? slow + signal then Ok (Macd.mk [] [] [])
  else
    ema_fast ← _ema close fast;
    ema_slow ← _ema close slow;
    let offset := slow - fast in
    let macd_line :=
      zip_with (fun f s => fround 4 (fsub f s))
               (pyslice ema_fast (Some offset) None) ema_slow in
    signal_line ← _ema macd_line signal;
    let offset_sig := signal - 1 in
    let aligned_macd := pyslice macd_line (Some offset_sig) None in
    let histogram :=
      zip_with (fun m s => fround 4 (fsub m s)) aligned_macd signal_line in
    Ok (Macd.mk (fround 4 <$> aligned_macd) (fround 4 <$> signal_line) histogram).

(** One iteration of the loop of [compute_bollinger_bands]: the values
    appended to [middle], [upper] and [lower]. *)
Definition bollinger_at (close : list F) (period : Z) (std_dev : F) (i : Z)
    : res (F * F * F) :=
  let window := pyslice close (Some (i - period + 1)) (Some (i + 1)) in
  sma ← pydiv_int (pysum window) period;
  squares ← for_each (fun p => fsquare (fsub p sma)) window;
  variance ← pydiv_int (pysum squares) period;
  std ← msqrt variance;
  Ok (fround 2 sma,
      fround 2 (fadd sma (fmul std_dev std)),
      fround 2 (fsub sma (fmul std_dev std))).

Definition compute_bollinger_bands (close : list F) (period : Z) (std_dev : F)
    : res (Bands.t F) :=
  if len close <? period then Ok (Bands.mk [] [] [])
  else
    rows ← for_each (bollinger_at close period std_dev)
                    (range (period - 1) (len close));
    Ok (Bands.mk (rows.*1.*2) (rows.*1.*1) (rows.*2)).

(** [next((v for v in reversed(xs) if v is not None), None)] *)
Definition last_valid (xs : list (option F)) : option F :=
  next_not_none (reverse xs).

(** [round(v, 2) if v else None] *)
Definition round_if (v : option F) : option F :=
  match v with
  | Some x => if truthy x then Some (fround 2 x) else None
  | None => None
  end.

Definition rsi_signal (last_rsi : option F) : list string :=
  match last_rsi with
  | Some r =>
      if fltb (of_Z 70) r then
        [("RSI " +:+ fmt1 r +:+ ": Overbought — potential pullback.")%string]
      else if fltb r (of_Z 30) then
        [("RSI " +:+ fmt1 r +:+ ": Oversold — potential bounce.")%string]
      else [("RSI " +:+ fmt1 r +:+ ": Neutral zone.")%string]
  | None => []
  end.

Definition macd_signal (last_macd last_signal : option F) : list string :=
  match last_macd, last_signal with
  | Some m, Some s =>
      if fltb s m then ["MACD above signal line: Bullish momentum."%string]
      else ["MACD below signal line: Bearish momentum."%string]
  | _, _ => []
  end.

Definition cross_signal (last_sma50 last_sma200 : option F) : list string :=
  match last_sma50, last_sma200 with
  | Some a, Some b =>
      if truthy a && truthy b then
        if fltb b a then
          ["Golden Cross active (50MA > 200MA): Long-term bullish."%string]
        else ["Death Cross active (50MA < 200MA): Long-term bearish."%string]
      else []
  | _, _ => []
  end.

Definition band_signal (last_close : F) (last_bb_upper last_bb_lower : option F)
    : list string :=
  match last_bb_upper, last_bb_lower with
  | Some u, Some l =>
      if truthy last_close && truthy u && truthy l then
        if fltb u last_close then
          ["Price above upper Bollinger Band: Overbought / strong momentum."%string]
        else if fltb last_close l then
          ["Price below lower Bollinger Band: Oversold / weakness."%string]
        else []
      else []
  | _, _ => []
  end.

Definition compute_indicators (dates : list string) (close high low : list F)
    (volume : list Z) : res (Summary.t F) :=
  sma_20 ← _sma close 20;
  sma_50 ← _sma close 50;
  sma_200 ← _sma close 200;
  rsi_14 ← compute_rsi close 14;
  macd_data ← compute_macd close 12 26 9;
  bb_data ← compute_bollinger_bands close 20 (of_Z 2);
  (* latest valid values; [last xs] is [xs[-1] if xs else None] *)
  let last_close := default zero (last close) in
  let last_rsi := last_valid rsi_14 in
  let last_sma20 := last_valid sma_20 in
  let last_sma50 := last_valid sma_50 in
  let last_sma200 := last_valid sma_200 in
  let last_macd := last (Macd.macd macd_data) in
  let last_signal := last (Macd.signal macd_data) in
  let last_hist := last (Macd.histogram macd_data) in
  let last_bb_upper := last (Bands.upper bb_data) in
  let last_bb_lower := last (Bands.lower bb_data) in
  (* signal interpretations *)
  let signals :=
    rsi_signal last_rsi ++ macd_signal last_macd last_signal
    ++ cross_signal last_sma50 last_sma200
    ++ band_signal last_close last_bb_upper last_bb_lower in
  (* trend direction *)
  price_30d_ago ←
    (if 30 <=? len close then py_getitem close (-30) else py_getitem close 0);
  trend_pct ←
    (if truthy price_30d_ago then
       q ← pydiv (fsub last_close price_30d_ago) price_30d_ago;
       Ok (fmul q (of_Z 100))
     else Ok zero);
  let trend :=
    if fltb (of_Z 2) trend_pct then "Uptrend"%string
    else if fltb trend_pct (of_Z (-2)) then "Downtrend"%string
    else "Sideways"%string in
  Ok {| Summary.rsi := rsi_14;
        Summary.macd := macd_data;
        Summary.bollinger_bands := bb_data;
        Summary.sma_20 := sma_20;
        Summary.sma_50 := sma_50;
        Summary.sma_200 := sma_200;
        Summary.latest :=
          {| Latest.close := last_close;
             Latest.rsi := round_if last_rsi;
             Latest.macd := last_macd;
             Latest.macd_signal := last_signal;
             Latest.macd_histogram := last_hist;
             Latest.sma_20 := round_if last_sma20;
             Latest.sma_50 := round_if last_sma50;
             Latest.sma_200 := round_if last_sma200;
             Latest.bb_upper := last_bb_upper;
             Latest.bb_lower := last_bb_lower;
             Latest.trend := trend;
             Latest.trend_30d_pct := fround 2 trend_pct |};
        Summary.signals := signals;
        Summary.data_points := len close |}.

End Engine.

(** ** Exact arithmetic *)

(** The nearest integer, a tie going to the even neighbour. *)
Definition round_half_even (q : Q) : Z :=
  let f := Qfloor q in
  match (q - inject_Z f ?= 1 # 2)%Q with
  | Lt => f
  | Gt => f + 1
  | Eq => if Z.even f then f else f + 1
  end.

(** [round(q, n)]: the nearest multiple of [10 ** -n], ties to even. *)
Definition Qround_digits (n : Z) (q : Q) : Q :=
  Qred (inject_Z (round_half_even (q * (10 # 1) ^ n)) / (10 # 1) ^ n).

(** [format(q, ".1f")] *)
Definition Qfmt1 (q : Q) : string :=
  let t := round_half_even (Qabs q * (10 # 1)) in
  ((if Qle_bool 0 q then "" else "-")
     +:+ pretty (t / 10) +:+ "." +:+ pretty (t mod 10))%string.

Section Exact.
(** The square root is the one operation of the module with irrational
    results: [rt] is whatever approximation [math.sqrt] returns on arguments
    that are not negative. *)
Context (rt : Q -> Q).

#[local] Instance exact_float : PyFloat Q := {|
  of_Z := inject_Z;
  fadd x y := Qred (x + y);
  fsub x y := Qred (x - y);
  fmul x y := Qred (x * y);
  fquot x y := Qred (x / y);
  fneg x := Qred (- x);
  feqb := Qeq_bool;
  fltb x y := negb (Qle_bool y x);
  fsquare x := Ok (Qred (x * x));
  msqrt x := if Qle_bool 0 x then Ok (rt x) else Raise ValueError;
  fround := Qround_digits;
  fmt1 := Qfmt1
|}.
End Exact.

(** A square root for running the model: truncated to six decimals. *)
Definition sqrt6 (q : Q) : Q :=
  Qred (inject_Z (Z.sqrt (Qfloor (q * (10 # 1) ^ 12))) / (10 # 1) ^ 6).

(** ** Binary64 arithmetic *)

(** CPython's [float] is IEEE 754 binary64: Rocq's primitive floats, whose
    sum, difference, product, quotient and square root are rounded to the
    nearest float, a tie going to the even one. *)

(** The exact value of a finite float; NaN and the infinities have none. *)
Definition b64_value (x : PrimFloat.float) : option Q :=
  match FloatOps.Prim2SF x with
  | SpecFloat.S754_zero _ => Some 0%Q
  | SpecFloat.S754_finite s m e =>
      Some (Qred (inject_Z (if s then Zneg m else Zpos m) * (2 # 1) ^ e))
  | _ => None
  end.

(** The float nearest to a rational, a tie going to the even one: the
    quotient is taken with at least 64 bits, and the remainder says on which
    side of the half-way point the rational lies. *)
Definition b64_nearest (q : Q) : PrimFloat.float :=
  let a := Z.abs (Qnum q) in
  let d := Zpos (Qden q) in
  if a =? 0 then PrimFloat.zero
  else
    let e := Z.log2 a - Z.log2 d - 64 in
    let num := if e <? 0 then a * 2 ^ (- e) else a in
    let den := if e <? 0 then d else d * 2 ^ e in
    let m := num / den in
    let r := num mod den in
    let l := if r =? 0 then SpecFloat.loc_Exact
             else SpecFloat.loc_Inexact (2 * r ?= den) in
    FloatOps.SF2Prim
      (SpecFloat.binary_round_aux FloatOps.prec FloatOps.emax (Qnum q <? 0) m e l).

(** [round(x, n)]: CPython rounds the exact value of [x] to [n] decimals, a
    tie of that exact value going to the even neighbour, and returns the
    float nearest to the decimal; a zero keeps the sign of [x], and NaN and
    the infinities are returned as they are. *)
Definition b64_round (n : Z) (x : PrimFloat.float) : PrimFloat.float :=
  match b64_value x with
  | Some q =>
      let r := Qround_digits n q in
      if Qeq_bool r 0
      then (if PrimFloat.get_sign x then PrimFloat.neg_zero else PrimFloat.zero)
      else b64_nearest r
  | None => x
  end.

(** [format(x, ".1f")] *)
Definition b64_fmt1 (x : PrimFloat.float) : string :=
  match b64_value x with
  | Some q =>
      let t := round_half_even (Qabs q * (10 # 1)) in
      ((if PrimFloat.get_sign x then "-" else "")
         +:+ pretty (t / 10) +:+ "." +:+ pretty (t mod 10))%string
  | None =>
      if PrimFloat.is_nan x then "nan"%string
      else if PrimFloat.get_sign x then "-inf"%string else "inf"%string
  end.

(** The operations of CPython on binary64.  An int operand is converted to
    the nearest float (the ints of the module are periods and small
    literals, far below the range where CPython raises instead), and
    [x ** 2] is the correctly rounded square, with OverflowError when a
    finite [x] has no finite square. *)
Definition binary64 : PyFloat PrimFloat.float := {|
  of_Z z := b64_nearest (inject_Z z);
  fadd := PrimFloat.add;
  fsub := PrimFloat.sub;
  fmul := PrimFloat.mul;
  fquot := PrimFloat.div;
  fneg := PrimFloat.opp;
  feqb := PrimFloat.eqb;
  fltb := PrimFloat.ltb;
  fsquare x :=
    let y := PrimFloat.mul x x in
    if PrimFloat.is_infinity y && negb (PrimFloat.is_infinity x)
    then Raise OverflowError else Ok y;
  msqrt x := if PrimFloat.ltb x PrimFloat.zero then Raise ValueError
             else Ok (PrimFloat.sqrt x);
  fround := b64_round;
  fmt1 := b64_fmt1
|}.

(** A price of [c] hundredths, as the fetcher hands it over:
    [round(float(v), 2)] is the float nearest to the decimal. *)
Definition cents (c : Z) : PrimFloat.float :=
  PrimFloat.div (b64_nearest (inject_Z c)) (b64_nearest (inject_Z 100)).

(** A value of [k] ten-thousandths, as [round(x, 4)] returns it. *)
Definition ten_thousandths (k : Z) : PrimFloat.float :=
  PrimFloat.div (b64_nearest (inject_Z k)) (b64_nearest (inject_Z 10000)).

(** Wilder's averages carry the sign of the period: they are not negative
    for a positive period, and not positive for a negative one. *)
Definition sign_of (period : Z) (x : Q) : Prop :=
  (0 < period -> (0 <= x)%Q) /\ (period < 0 -> (x <= 0)%Q).


(** [x] is a whole number of ten-thousandths. *)
Definition on_grid4 (x : Q) : Prop :=
  exists k : Z, (x == inject_Z k / 10000)%Q.

(** [x], counted in ten-thousandths, is a fraction with an odd denominator:
    it cannot lie half-way between two neighbours on the grid. *)
Definition odd_den4 (x : Q) : Prop :=
  exists a d : Z, Z.odd d = true /\ (x * 10000 * inject_Z d == inject_Z a)%Q.

(** ** What the specification speaks of *)

Section Spec.
Context {F : Type} `{PyFloat F}.

(** The arithmetic mean: the sum over the number of values. *)
Definition mean (xs : list F) : F := fquot (pysum xs) (of_Z (len xs)).

(** [values[i-period+1 .. i]], both ends included. *)
Definition window (values : list F) (period i : Z) : list F :=
  take (Z.to_nat period) (drop (Z.to_nat (i - period + 1)) values).

(** Gains and losses of the steps of a series. *)
Definition gains_of (close : list F) : list F :=
  zip_with (fun prev cur => pymax (fsub cur prev) zero) close (tail close).
Definition losses_of (close : list F) : list F :=
  zip_with (fun prev cur => pymax (fneg (fsub cur prev)) zero) close (tail close).

(** Wilder's running average of [xs] after [j] updates: the plain mean of
    the first [period] values, then one update per further value. *)
Fixpoint wilder_avg (xs : list F) (period : Z) (j : nat) : F :=
  match j with
  | O => fquot (pysum (take (Z.to_nat period) xs)) (of_Z period)
  | S j' =>
      fquot (fadd (fmul (wilder_avg xs period j') (of_Z (period - 1)))
                  (default zero (xs !! (Z.to_nat period + j')%nat)))
            (of_Z period)
  end.

(** The exponential moving average of at least [period] prices: the mean of
    the first [period] prices, then one smoothing step per further price. *)
Definition ema_series (prices : list F) (period : Z) : list F :=
  let k := fquot (of_Z 2) (of_Z (period + 1)) in
  let seed := fquot (pysum (take (Z.to_nat period) prices)) (of_Z period) in
  seed :: ema_loop k seed (drop (Z.to_nat period) prices).

(** The lines of the MACD for the default periods 12, 26 and 9. *)
Definition macd_line_of (close : list F) : list F :=
  zip_with (fun f s => fround 4 (fsub f s))
           (drop 14 (ema_series close 12)) (ema_series close 26).
Definition signal_line_of (close : list F) : list F :=
  ema_series (macd_line_of close) 9.

(** [v] is the last value of [xs] that is not the marker. *)
Definition last_value (xs : list (option F)) (v : F) : Prop :=
  exists pre k, xs = pre ++ Some v :: replicate k None.

(** The field [o] reports the last element of [xs], and is null exactly
    when [xs] is empty. *)
Definition reports_last (xs : list F) (o : option F) : Prop :=
  (xs = [] -> o = None) /\ (forall pre x, xs = pre ++ [x] -> o = Some x).

(** The field [o] is null when [xs] holds markers only, and reports the last
    value of [xs], rounded to two decimals, when that value is not zero. *)
Definition reports_rounded (xs : list (option F)) (o : option F) : Prop :=
  ((forall v, Some v ∉ xs) -> o = None) /\
  (forall v, last_value xs v -> feqb v zero = false -> o = Some (fround 2 v)).
End Spec.

(** ** The chart builder *)

(** What the builder returns is a Plotly specification: JSON made of dicts,
    lists, strings and numbers.  A dict is the list of its items in
    insertion order. *)
Local Unset Elimination Schemes.
Inductive json (F : Type) : Type :=
| JNone
| JBool (b : bool)
| JInt (n : Z)
| JFloat (x : F)
| JStr (s : string)
| JList (l : list (json F))
| JDict (d : list (string * json F)).
Local Set Elimination Schemes.
Arguments JNone {F}.
Arguments JBool {F} b.
Arguments JInt {F} n.
Arguments JFloat {F} x.
Arguments JStr {F} s.
Arguments JList {F} l.
Arguments JDict {F} d.

(** [d.get(k)] *)
Fixpoint dict_get {V} (k : string) (d : list (string * V)) : option V :=
  match d with
  | [] => None
  | (k', v) :: d' => if String.eqb k k' then Some v else dict_get k d'
  end.

(** [d[k] = v]: a key that is present keeps its place. *)
Fixpoint dict_set {V} (k : string) (v : V) (d : list (string * V))
    : list (string * V) :=
  match d with
  | [] => [(k, v)]
  | (k', v') :: d' =>
      if String.eqb k k' then (k', v) :: d' else (k', v') :: dict_set k v d'
  end.

(** [d.update(extra)] *)
Definition dict_update {V} (d extra : list (string * V)) : list (string * V) :=
  foldl (fun acc kv => dict_set kv.1 kv.2 acc) d extra.

(** [d[k]] for a key that the dict literal [d] holds. *)
Definition dict_item {F} (k : string) (d : list (string * json F)) : json F :=
  default JNone (dict_get k d).

(** The columns of a history that [build_technical_chart] reads. *)
Module Hist.
Record t (F : Type) : Type := mk {
  dates : list string;
  open : list F;
  high : list F;
  low : list F;
  close : list F;
  volume : list Z
}.
Arguments mk {F}.
Arguments dates {F}.
Arguments open {F}.
Arguments high {F}.
Arguments low {F}.
Arguments close {F}.
Arguments volume {F}.
End Hist.

(** What [get_historical_data] returned: a dict with the key ["error"], or a
    history. *)
Inductive fetched (F : Type) : Type :=
| FetchError (error : string)
| Fetched (hist : Hist.t F).
Arguments FetchError {F} error.
Arguments Fetched {F} hist.

Section Charts.
Context {F : Type} `{PyFloat F}.
(** [str.upper] *)
Context (upper : string -> string).

(** The float literal [n / d]. *)
Definition dec (n d : Z) : F := fquot (of_Z n) (of_Z d).

(** [x >= y] *)
Definition fgeb (x y : F) : bool := fltb y x || feqb x y.

Definition opt_json (v : option F) : json F :=
  match v with
  | Some x => JFloat x
  | None => JNone
  end.

Definition PLOTLY_THEME : list (string * json F) :=
  [("paper_bgcolor", JStr "#0f1117");
   ("plot_bgcolor", JStr "#0f1117");
   ("font", JDict [("color", JStr "#e0e0e0"); ("family", JStr "Inter, sans-serif")]);
   ("gridcolor", JStr "#1e2130")]%string.

Definition _dark_layout (title : string) (extra : option (list (string * json F)))
    : list (string * json F) :=
  let layout :=
    [("title", JDict [("text", JStr title);
                      ("font", JDict [("size", JInt 18); ("color", JStr "#ffffff")])]);
     ("paper_bgcolor", dict_item "paper_bgcolor" PLOTLY_THEME);
     ("plot_bgcolor", dict_item "plot_bgcolor" PLOTLY_THEME);
     ("font", dict_item "font" PLOTLY_THEME);
     ("legend", JDict [("bgcolor", JStr "#1a1d2e"); ("bordercolor", JStr "#2d3148")]);
     ("xaxis", JDict [("gridcolor", JStr "#1e2130"); ("linecolor", JStr "#2d3148");
                      ("showgrid", JBool true)]);
     ("yaxis", JDict [("gridcolor", JStr "#1e2130"); ("linecolor", JStr "#2d3148");
                      ("showgrid", JBool true)]);
     ("hovermode", JStr "x unified");
     ("margin", JDict [("l", JInt 50); ("r", JInt 20); ("t", JInt 60); ("b", JInt 40)])
    ]%string in
  match extra with
  | Some ((_ :: _) as e) => dict_update layout e
  | _ => layout
  end.

(** The colour of one bar of the histogram:
    ["#26a69a" if (v or 0) >= 0 else "#ef5350"]. *)
Definition bar_color (v : F) : string :=
  let w := if truthy v then v else zero in
  if fgeb w zero then "#26a69a"%string else "#ef5350"%string.

Definition build_technical_chart (ticker period : string) (hist : fetched F)
    : res (json F) :=
  match hist with
  | FetchError error => Ok (JDict [("error"%string, JStr error)])
  | Fetched hist =>
      let dates := Hist.dates hist in
      let closes := Hist.close hist in
      indicators ← compute_indicators dates closes (Hist.high hist)
                                      (Hist.low hist) (Hist.volume hist);
      (* align date arrays *)
      let n := len dates in
      let sma20 := Summary.sma_20 indicators in
      let sma50 := Summary.sma_50 indicators in
      let sma200 := Summary.sma_200 indicators in
      let rsi := Summary.rsi indicators in
      let macd_data := Summary.macd indicators in
      let bb := Summary.bollinger_bands indicators in
      let bb_offset := n - len (Bands.upper bb) in
      let rsi_offset := n - len (filter is_Some rsi) in
      let bb_dates := pyslice dates (Some bb_offset) None in
      let macd_offset := n - len (Macd.macd macd_data) in
      let macd_dates := pyslice dates (Some macd_offset) None in
      let traces :=
        [ (* price *)
          JDict [("type", JStr "scatter"); ("x", JList (JStr <$> dates));
                 ("y", JList (JFloat <$> closes)); ("name", JStr "Price");
                 ("line", JDict [("color", JStr "#4fc3f7");
                                 ("width", JFloat (dec 15 10))]);
                 ("yaxis", JStr "y")];
          (* Bollinger bands *)
          JDict [("type", JStr "scatter"); ("x", JList (JStr <$> bb_dates));
                 ("y", JList (JFloat <$> Bands.upper bb)); ("name", JStr "BB Upper");
                 ("line", JDict [("color", JStr "#7e57c2"); ("width", JInt 1);
                                 ("dash", JStr "dot")]);
                 ("yaxis", JStr "y")];
          JDict [("type", JStr "scatter"); ("x", JList (JStr <$> bb_dates));
                 ("y", JList (JFloat <$> Bands.middle bb)); ("name", JStr "BB Middle");
                 ("line", JDict [("color", JStr "#7e57c2"); ("width", JInt 1)]);
                 ("yaxis", JStr "y")];
          JDict [("type", JStr "scatter"); ("x", JList (JStr <$> bb_dates));
                 ("y", JList (JFloat <$> Bands.lower bb)); ("name", JStr "BB Lower");
                 ("line", JDict [("color", JStr "#7e57c2"); ("width", JInt 1);
                                 ("dash", JStr "dot")]);
                 ("fill", JStr "tonexty");
                 ("fillcolor", JStr "rgba(126,87,194,0.05)");
                 ("yaxis", JStr "y")];
          (* moving averages *)
          JDict [("type", JStr "scatter"); ("x", JList (JStr <$> dates));
                 ("y", JList (opt_json <$> sma20)); ("name", JStr "SMA 20");
                 ("line", JDict [("color", JStr "#ffb74d");
                                 ("width", JFloat (dec 12 10))]);
                 ("yaxis", JStr "y")];
          JDict [("type", JStr "scatter"); ("x", JList (JStr <$> dates));
                 ("y", JList (opt_json <$> sma50)); ("name", JStr "SMA 50");
                 ("line", JDict [("color", JStr "#ef9a9a");
                                 ("width", JFloat (dec 12 10))]);
                 ("yaxis", JStr "y")];
          (* RSI *)
          JDict [("type", JStr "scatter"); ("x", JList (JStr <$> dates));
                 ("y", JList (opt_json <$> rsi)); ("name", JStr "RSI (14)");
                 ("line", JDict [("color", JStr "#80cbc4");
                                 ("width", JFloat (dec 15 10))]);
                 ("yaxis", JStr "y2")];
          JDict [("type", JStr "scatter"); ("x", JList (JStr <$> dates));
                 ("y", JList (pyrepeat (JInt 70) n)); ("name", JStr "Overbought (70)");
                 ("line", JDict [("color", JStr "#ef5350");
                                 ("width", JFloat (dec 8 10));
                                 ("dash", JStr "dash")]);
                 ("yaxis", JStr "y2")];
          JDict [("type", JStr "scatter"); ("x", JList (JStr <$> dates));
                 ("y", JList (pyrepeat (JInt 30) n)); ("name", JStr "Oversold (30)");
                 ("line", JDict [("color", JStr "#26a69a");
                                 ("width", JFloat (dec 8 10));
                                 ("dash", JStr "dash")]);
                 ("yaxis", JStr "y2")];
          (* MACD *)
          JDict [("type", JStr "scatter"); ("x", JList (JStr <$> macd_dates));
                 ("y", JList (JFloat <$> Macd.macd macd_data)); ("name", JStr "MACD");
                 ("line", JDict [("color", JStr "#29b6f6");
                                 ("width", JFloat (dec 15 10))]);
                 ("yaxis", JStr "y3")];
          JDict [("type", JStr "scatter"); ("x", JList (JStr <$> macd_dates));
                 ("y", JList (JFloat <$> Macd.signal macd_data)); ("name", JStr "Signal");
                 ("line", JDict [("color", JStr "#ff7043");
                                 ("width", JFloat (dec 12 10))]);
                 ("yaxis", JStr "y3")];
          JDict [("type", JStr "bar"); ("x", JList (JStr <$> macd_dates));
                 ("y", JList (JFloat <$> Macd.histogram macd_data));
                 ("name", JStr "Histogram");
                 ("marker",
                  JDict [("color",
                          JList ((fun v => JStr (bar_color v))
                                   <$> Macd.histogram macd_data))]);
                 ("yaxis", JStr "y3")]
        ]%string in
      let layout :=
        _dark_layout
          (upper ticker +:+ " — Technical Analysis (" +:+ period +:+ ")")%string
          (Some
             [("xaxis", JDict [("gridcolor", JStr "#1e2130"); ("type", JStr "date");
                               ("rangeslider", JDict [("visible", JBool false)])]);
              ("yaxis", JDict [("gridcolor", JStr "#1e2130");
                               ("domain", JList [JFloat (dec 45 100); JFloat (of_Z 1)]);
                               ("title", JStr "Price")]);
              ("yaxis2", JDict [("gridcolor", JStr "#1e2130");
                                ("domain", JList [JFloat (dec 25 100);
                                                  JFloat (dec 42 100)]);
                                ("title", JStr "RSI")]);
              ("yaxis3", JDict [("gridcolor", JStr "#1e2130");
                                ("domain", JList [JFloat (of_Z 0);
                                                  JFloat (dec 22 100)]);
                                ("title", JStr "MACD")]);
              ("height", JInt 700)]%string) in
      Ok (JDict [("data", JList traces);
                 ("layout", JDict layout);
                 ("config", JDict [("responsive", JBool true)])]%string)
  end.

(** A trace pairs every [x] with a [y]. *)
Definition aligned (trace : json F) : Prop :=
  exists d xs ys,
    trace = JDict d /\
    dict_get "x"%string d = Some (JList xs) /\
    dict_get "y"%string d = Some (JList ys) /\
    length xs = length ys.

(** The trace of a chart with a given name. *)
Definition named (name : string) (trace : json F) : Prop :=
  exists d, trace = JDict d /\ dict_get "name"%string d = Some (JStr name).

End Charts.

(** ** Results, loops and sequences *)

Lemma bind_Ok {A B} (m : res A) (f : A -> res B) (b : B) :
  m ≫= f = Ok b <-> exists a, m = Ok a /\ f a = Ok b.
Proof.
  destruct m as [a|e]; simpl; split.
  - intros Hf. by exists a.
  - by intros (a' & [= <-] & Hf).
  - discriminate.
  - by intros (a' & [=] & _).
Qed.

Lemma fmap_Ok {A B} (m : res A) (f : A -> B) (b : B) :
  f <$> m = Ok b <-> exists a, m = Ok a /\ b = f a.
Proof.
  destruct m as [a|e]; simpl; split.
  - intros [= <-]. by exists a.
  - by intros (a' & [= <-] & ->).
  - discriminate.
  - by intros (a' & [=] & _).
Qed.

(** Take a hypothesis [_ = Ok _] over a chain of binds apart. *)
Ltac res_inv :=
  repeat match goal with
  | Hb : _ ≫= _ = Ok _ |- _ =>
      apply bind_Ok in Hb; destruct Hb as (? & ? & Hb)
  | Hb : _ <$> _ = Ok _ |- _ =>
      apply fmap_Ok in Hb; destruct Hb as (? & ? & Hb)
  | Hb : Ok _ = Ok _ |- _ => injection Hb as Hb
  | Hb : Raise _ = Ok _ |- _ => discriminate Hb
  end.

Lemma for_each_Ok {A B} (f : A -> res B) (l : list A) (ys : list B) :
  for_each f l = Ok ys <-> Forall2 (fun x y => f x = Ok y) l ys.
Proof.
  revert ys. induction l as [|x l IH]; intros ys; simpl.
  - split.
    + intros [= <-]. constructor.
    + intros Hall. by inversion Hall.
  - split.
    + intros Hb. res_inv. subst ys. constructor; [done|]. by apply IH.
    + intros Hall. inversion Hall as [|? y ? ys' Hy Hys]; subst.
      rewrite Hy. simpl. apply IH in Hys. by rewrite Hys.
Qed.

Lemma for_each_total {A B} (f : A -> res B) (l : list A) :
  (forall x, x ∈ l -> exists y, f x = Ok y) -> exists ys, for_each f l = Ok ys.
Proof.
  induction l as [|x l IH]; intros Hf; simpl.
  - by exists [].
  - destruct (Hf x) as [y Hy]; [left|].
    destruct IH as [ys Hys]; [intros z Hz; apply Hf; by right|].
    exists (y :: ys). by rewrite Hy; simpl; rewrite Hys.
Qed.

Lemma for_each_length {A B} (f : A -> res B) (l : list A) (ys : list B) :
  for_each f l = Ok ys -> length ys = length l.
Proof. intros Hf%for_each_Ok. symmetry. by eapply Forall2_length. Qed.

Lemma for_each_lookup {A B} (f : A -> res B) (l : list A) (ys : list B) i x :
  for_each f l = Ok ys -> l !! i = Some x ->
  exists y, ys !! i = Some y /\ f x = Ok y.
Proof. intros Hf%for_each_Ok Hx. by eapply Forall2_lookup_l in Hf. Qed.


Lemma length_range a b : length (range a b) = Z.to_nat (b - a).
Proof. apply length_seqZ. Qed.

Lemma lookup_range a b i :
  (i < Z.to_nat (b - a))%nat -> range a b !! i = Some (a + Z.of_nat i).
Proof. intros Hi. apply lookup_seqZ_lt. lia. Qed.

Lemma elem_of_range a b k : k ∈ range a b <-> a <= k < b.
Proof. unfold range. rewrite elem_of_seqZ. lia. Qed.

Lemma length_pyrepeat {A} (x : A) k : length (pyrepeat x k) = Z.to_nat k.
Proof. apply length_replicate. Qed.

Lemma pyslice_prefix {A} (l : list A) k :
  0 <= k -> pyslice l None (Some k) = take (Z.to_nat k) l.
Proof.
  intros Hk. unfold pyslice, clamp_index, len. simpl.
  change (drop (Z.to_nat 0) l) with l.
  destruct (Z.ltb_spec k 0); [lia|]. rewrite Z.sub_0_r.
  destruct (Z.le_ge_cases k (Z.of_nat (length l))).
  - by rewrite Z.min_l.
  - rewrite Z.min_r, Nat2Z.id by done. rewrite !take_ge; [done|lia..].
Qed.

Lemma pyslice_suffix {A} (l : list A) k :
  0 <= k -> pyslice l (Some k) None = drop (Z.to_nat k) l.
Proof.
  intros Hk. unfold pyslice, clamp_index, len. simpl.
  destruct (Z.ltb_spec k 0); [lia|].
  destruct (Z.le_ge_cases k (Z.of_nat (length l))).
  - rewrite Z.min_l by done. apply take_ge. rewrite length_drop. lia.
  - rewrite Z.min_r, Nat2Z.id by done. rewrite !drop_ge by lia. apply take_nil.
Qed.

Lemma pyslice_window {A} (l : list A) a b :
  0 <= a -> a <= b -> b <= len l ->
  pyslice l (Some a) (Some b) = take (Z.to_nat (b - a)) (drop (Z.to_nat a) l).
Proof.
  intros Ha Hab Hb. unfold pyslice, clamp_index. simpl.
  destruct (Z.ltb_spec a 0); [lia|]. destruct (Z.ltb_spec b 0); [lia|].
  by rewrite !Z.min_l by lia.
Qed.

Lemma py_getitem_lookup {A} (l : list A) i x :
  0 <= i -> l !! Z.to_nat i = Some x -> py_getitem l i = Ok x.
Proof.
  intros Hi Hx. unfold py_getitem.
  assert ((i <? 0) = false) as -> by lia. cbv zeta.
  assert ((i <? 0) = false) as -> by lia. by rewrite Hx.
Qed.


Lemma next_not_none_None {A} (l : list (option A)) :
  next_not_none l = None <-> forall v, Some v ∉ l.
Proof.
  induction l as [|[w|] l IH]; simpl.
  - split; [|done]. intros _ v Hv. by apply elem_of_nil in Hv.
  - split; [done|]. intros Hv. exfalso. apply (Hv w). left.
  - rewrite IH. split.
    + intros Hl v Hv. apply elem_of_cons in Hv as [?|?]; [done|]. by eapply Hl.
    + intros Hl v Hv. apply (Hl v). by right.
Qed.

(** ** Facts that hold for every float carrier *)

Section EngineFacts.
Context {F : Type} `{PyFloat F}.

Lemma pydiv_int_Ok (x : F) n : n <> 0 -> pydiv_int x n = Ok (fquot x (of_Z n)).
Proof. intros Hn. unfold pydiv_int. by destruct (Z.eqb_spec n 0). Qed.


Lemma length_window (values : list F) period i :
  1 <= period -> period - 1 <= i < len values ->
  len (window values period i) = period.
Proof.
  intros Hp Hi. unfold window, len in *.
  rewrite length_take, length_drop. lia.
Qed.

Lemma sma_at_mean (values : list F) period i :
  1 <= period -> period - 1 <= i < len values ->
  sma_at values period i = Ok (mean (window values period i)).
Proof.
  intros Hp Hi. unfold sma_at, mean.
  rewrite length_window by done.
  rewrite pyslice_window by lia.
  replace (i + 1 - (i - period + 1)) with period by lia.
  by apply pydiv_int_Ok; lia.
Qed.

(** The loop of [_sma] for a window length of at least one. *)
Lemma sma_tail (values : list F) period :
  1 <= period ->
  exists tail,
    for_each (fun i => Some <$> sma_at values period i)
             (range (period - 1) (len values)) = Ok tail /\
    length tail = Z.to_nat (len values - (period - 1)) /\
    forall j, (j < length tail)%nat ->
      tail !! j =
      Some (Some (mean (window values period (period - 1 + Z.of_nat j)))).
Proof.
  intros Hp.
  destruct (for_each_total (fun i => Some <$> sma_at values period i)
              (range (period - 1) (len values))) as [tail Htail].
  { intros i Hi%elem_of_range. rewrite sma_at_mean by done. by eexists. }
  exists tail. split; [done|].
  pose proof (for_each_length _ _ _ Htail) as Hlen.
  rewrite length_range in Hlen. split; [done|].
  intros j Hj.
  destruct (for_each_lookup _ _ _ j (period - 1 + Z.of_nat j) Htail)
    as (y & -> & Hy).
  { apply lookup_range. lia. }
  rewrite sma_at_mean in Hy by lia. by injection Hy as <-.
Qed.

(** C2 (amended): for a window length [period >= 1] and at least
    [period - 1] values, [_sma] returns a series as long as [values]; its
    first [period - 1] positions hold the no-value marker and its position
    [i >= period - 1] holds the arithmetic mean of [values[i-period+1 .. i]].
    In particular SMA(closes, 20) of at least 20 closes has exactly 19
    leading markers, and its 20th element is the mean of [closes[0:20]]. *)
Theorem sma_spec (values : list F) period :
  1 <= period -> period - 1 <= len values ->
  exists r,
    _sma values period = Ok r /\
    len r = len values /\
    (forall i, 0 <= i < period - 1 -> r !! Z.to_nat i = Some None) /\
    (forall i, period - 1 <= i < len values ->
       r !! Z.to_nat i = Some (Some (mean (window values period i)))) /\
    (period = 20 -> 20 <= len values ->
       r !! 19%nat = Some (Some (mean (take 20 values)))).
Proof.
  intros Hp Hlen.
  destruct (sma_tail values period Hp) as (tail & Htail & Hlt & Hpos).
  assert (forall i, period - 1 <= i < len values ->
    (pyrepeat None (period - 1) ++ tail) !! Z.to_nat i
    = Some (Some (mean (window values period i)))) as Hmean.
  { intros i Hi. rewrite lookup_app_r; rewrite length_pyrepeat; [|lia].
    rewrite Hpos by lia. do 4 f_equal. lia. }
  exists (pyrepeat None (period - 1) ++ tail). repeat split.
  - unfold _sma. by rewrite Htail.
  - unfold len. rewrite length_app, length_pyrepeat, Hlt. unfold len in *. lia.
  - intros i Hi. rewrite lookup_app_l by (rewrite length_pyrepeat; lia).
    apply lookup_replicate_2. lia.
  - done.
  - intros -> Hn. exact (Hmean 19 ltac:(lia)).
Qed.

Lemma last_valid_None (xs : list (option F)) :
  last_valid xs = None <-> forall v, Some v ∉ xs.
Proof.
  unfold last_valid. rewrite next_not_none_None.
  by setoid_rewrite elem_of_reverse.
Qed.

Lemma next_not_none_markers (k : nat) (l : list (option F)) :
  next_not_none (replicate k None ++ l) = next_not_none l.
Proof. by induction k. Qed.

Lemma last_valid_last_value (xs : list (option F)) v :
  last_value xs v -> last_valid xs = Some v.
Proof.
  intros (pre & k & ->). unfold last_valid.
  rewrite reverse_app, reverse_cons, reverse_replicate, <-(assoc_L (++)).
  by rewrite next_not_none_markers.
Qed.

Lemma last_reports_last (xs : list F) : reports_last xs (last xs).
Proof.
  split; [by intros ->|]. intros pre x ->. apply last_snoc.
Qed.

Lemma round_if_reports_rounded (xs : list (option F)) :
  reports_rounded xs (round_if (last_valid xs)).
Proof.
  split.
  - intros Hxs%last_valid_None. by rewrite Hxs.
  - intros v Hv%last_valid_last_value Hz. rewrite Hv. simpl.
    unfold truthy. by rewrite Hz.
Qed.

(** C5 (amended): in a summary that [compute_indicators] returns, the latest
    macd, macd_signal, bb_upper and bb_lower are the last elements of their
    series, and null exactly when the series is empty; the latest rsi, sma_20,
    sma_50 and sma_200 are null when the series has no non-marker value, and
    the last non-marker value rounded to two decimals when that value is not
    zero.  Absence is always the null of the option type. *)
Theorem latest_fields (dates : list string) (close high low : list F)
    (volume : list Z) (s : Summary.t F) :
  compute_indicators dates close high low volume = Ok s ->
  let l := Summary.latest s in
  reports_last (Macd.macd (Summary.macd s)) (Latest.macd l) /\
  reports_last (Macd.signal (Summary.macd s)) (Latest.macd_signal l) /\
  reports_last (Bands.upper (Summary.bollinger_bands s)) (Latest.bb_upper l) /\
  reports_last (Bands.lower (Summary.bollinger_bands s)) (Latest.bb_lower l) /\
  reports_rounded (Summary.rsi s) (Latest.rsi l) /\
  reports_rounded (Summary.sma_20 s) (Latest.sma_20 l) /\
  reports_rounded (Summary.sma_50 s) (Latest.sma_50 l) /\
  reports_rounded (Summary.sma_200 s) (Latest.sma_200 l).
Proof.
  unfold compute_indicators. intros Hs. res_inv. subst s. simpl.
  repeat split; first [apply last_reports_last | apply round_if_reports_rounded].
Qed.

(** C9: [compute_indicators] reads its [close] argument only; the dates, the
    highs, the lows and the volumes do not reach the summary. *)
Theorem compute_indicators_close_only (dates dates' : list string)
    (close high high' low low' : list F) (volume volume' : list Z) :
  compute_indicators dates close high low volume
  = compute_indicators dates' close high' low' volume'.
Proof. reflexivity. Qed.

(** C3 fails on the code: for the empty series the indicators and the latest
    values are computed, and then [close[0]] of the trend raises. *)
Theorem compute_indicators_empty_raises (dates : list string)
    (high low : list F) (volume : list Z) :
  compute_indicators dates [] high low volume = Raise IndexError.
Proof. reflexivity. Qed.

End EngineFacts.

(** C2 at a series of five values and a window of two. *)
Lemma sma_spec_witness :
  1 <= 2 /\ 2 - 1 <= len [1; 2; 3; 4; 6]%Q /\
  exists r,
    _sma (H := exact_float sqrt6) [1; 2; 3; 4; 6]%Q 2 = Ok r /\
    r !! 0%nat = Some None /\
    r !! 4%nat = Some (Some (mean (H := exact_float sqrt6) [4; 6]%Q)).
Proof.
  split; [lia|]. split; [vm_compute; congruence|].
  destruct (sma_spec (H := exact_float sqrt6) [1; 2; 3; 4; 6]%Q 2)
    as (r & Hr & _ & Hpad & Hpos & _); [lia|vm_compute; congruence|].
  exists r. split; [exact Hr|]. split.
  - apply (Hpad 0). lia.
  - apply (Hpos 4). vm_compute. split; congruence.
Defined.

(** C2 as stated fails: three values and [period = 10] give nine markers, a
    series longer than its input; [period = 0] raises; [period = -1] gives
    five values and no marker. *)
Lemma sma_length_counterexample :
  _sma (H := exact_float sqrt6) [1; 2; 3]%Q 10 = Ok (replicate 9 None) /\
  _sma (H := exact_float sqrt6) [1; 2; 3]%Q 0 = Raise ZeroDivisionError /\
  _sma (H := exact_float sqrt6) [1; 2; 3]%Q (-1)
  = Ok [Some (-3)%Q; Some 0%Q; Some 0%Q; Some 0%Q; Some 0%Q].
Proof. repeat split; vm_compute; reflexivity. Qed.

(** ** Rounding to a decimal position, in exact arithmetic *)

Section Rounding.
Local Open Scope Q_scope.

(** The rounded value is the floor or the floor plus one, whichever is
    nearer; at a tie it is the even one. *)
Lemma round_half_even_cases (q : Q) :
  let f := Qfloor q in
  (round_half_even q = f /\ q - inject_Z f <= 1 # 2 /\
   (q - inject_Z f == 1 # 2 -> Z.even f = true)) \/
  (round_half_even q = (f + 1)%Z /\ 1 # 2 <= q - inject_Z f /\
   (q - inject_Z f == 1 # 2 -> Z.even f = false)).
Proof.
  intros f. unfold round_half_even. fold f.
  destruct (q - inject_Z f ?= 1 # 2) eqn:Hc.
  - apply Qeq_alt in Hc. destruct (Z.even f) eqn:He.
    + left. split; [done|]. split; [lra|done].
    + right. split; [done|]. split; [lra|done].
  - apply Qlt_alt in Hc. left. split; [done|]. split; [lra|]. intros Heq. lra.
  - apply Qgt_alt in Hc. right. split; [done|]. split; [lra|]. intros Heq. lra.
Qed.

Lemma round_half_even_mono (p q : Q) :
  p <= q -> (round_half_even p <= round_half_even q)%Z.
Proof.
  intros Hpq.
  pose proof (Qfloor_resp_le _ _ Hpq) as Hf.
  pose proof (Qfloor_le p) as Hp1. pose proof (Qlt_floor p) as Hp2.
  pose proof (Qfloor_le q) as Hq1. pose proof (Qlt_floor q) as Hq2.
  rewrite inject_Z_plus in Hp2, Hq2.
  destruct (round_half_even_cases p) as [(-> & Hp & Hpe)|(-> & Hp & Hpe)];
    destruct (round_half_even_cases q) as [(-> & Hq & Hqe)|(-> & Hq & Hqe)];
    try lia.
  destruct (Z.eq_dec (Qfloor p) (Qfloor q)) as [Heq|Hne]; [|lia].
  exfalso. rewrite Heq in *.
  assert (p - inject_Z (Qfloor q) == 1 # 2) as Hp' by lra.
  assert (q - inject_Z (Qfloor q) == 1 # 2) as Hq' by lra.
  specialize (Hpe Hp'). specialize (Hqe Hq'). congruence.
Qed.

Lemma round_half_even_comp (p q : Q) :
  p == q -> round_half_even p = round_half_even q.
Proof.
  intros Hpq. apply Z.le_antisymm; apply round_half_even_mono; lra.
Qed.

#[local] Instance round_half_even_proper : Proper (Qeq ==> eq) round_half_even.
Proof. intros p q. apply round_half_even_comp. Qed.

Lemma round_half_even_Z (z : Z) : round_half_even (inject_Z z) = z.
Proof.
  unfold round_half_even. rewrite Qfloor_Z.
  destruct (inject_Z z - inject_Z z ?= 1 # 2) eqn:Hc; [|done|].
  - apply Qeq_alt in Hc. lra.
  - apply Qgt_alt in Hc. lra.
Qed.

(** The rounded value lies within one half of the argument. *)
Lemma round_half_even_near (q : Q) :
  inject_Z (round_half_even q) - (1 # 2) <= q /\
  q <= inject_Z (round_half_even q) + (1 # 2).
Proof.
  pose proof (Qfloor_le q) as Hq1. pose proof (Qlt_floor q) as Hq2.
  rewrite inject_Z_plus in Hq2.
  change (inject_Z 1) with 1 in Hq2.
  destruct (round_half_even_cases q) as [(-> & Hq & _)|(-> & Hq & _)];
    rewrite ?inject_Z_plus; change (inject_Z 1) with 1; split; lra.
Qed.

(** [round(q, 2)] and [round(q, 4)], with the power of ten computed. *)
Lemma Qround_digits_2 (q : Q) :
  Qround_digits 2 q = Qred (inject_Z (round_half_even (q * 100)) / 100).
Proof. reflexivity. Qed.

Lemma Qround_digits_4 (q : Q) :
  Qround_digits 4 q = Qred (inject_Z (round_half_even (q * 10000)) / 10000).
Proof. reflexivity. Qed.

Lemma Qround_digits_2_mono (p q : Q) :
  p <= q -> Qround_digits 2 p <= Qround_digits 2 q.
Proof.
  intros Hpq. rewrite !Qround_digits_2, !Qred_correct.
  assert (p * 100 <= q * 100) as Hs by lra.
  apply round_half_even_mono in Hs. rewrite Zle_Qle in Hs.
  apply Qle_shift_div_l; [lra|].
  set (a := inject_Z (round_half_even (p * 100))) in *.
  set (b := inject_Z (round_half_even (q * 100))) in *.
  field_simplify (a / 100 * 100). lra.
Qed.

Lemma Qred_inject_Z (z : Z) : Qred (inject_Z z) = inject_Z z.
Proof. apply Qcanon.Qred_identity. apply Z.gcd_1_r. Qed.

Lemma Qround_digits_2_Z (z : Z) : Qround_digits 2 (inject_Z z) = inject_Z z.
Proof.
  rewrite Qround_digits_2.
  transitivity (Qred (inject_Z z)); [|apply Qred_inject_Z].
  apply Qred_complete.
  rewrite (round_half_even_comp (inject_Z z * 100) (inject_Z (z * 100)))
    by (rewrite inject_Z_mult; reflexivity).
  rewrite round_half_even_Z, inject_Z_mult. field.
Qed.

Lemma Qround_digits_2_comp (p q : Q) :
  p == q -> Qround_digits 2 p = Qround_digits 2 q.
Proof.
  intros Hpq. rewrite !Qround_digits_2. apply Qred_complete.
  by rewrite Hpq.
Qed.

End Rounding.

(** ** The loops of [compute_rsi], for every float carrier *)

Section RsiLoops.
Context {F : Type} `{PyFloat F}.

Lemma length_tail {A} (l : list A) : length (tail l) = pred (length l).
Proof. by destruct l. Qed.

Lemma length_gains_of (close : list F) :
  length (gains_of close) = pred (length close).
Proof. unfold gains_of. rewrite length_zip_with, length_tail. lia. Qed.

Lemma length_losses_of (close : list F) :
  length (losses_of close) = pred (length close).
Proof. unfold losses_of. rewrite length_zip_with, length_tail. lia. Qed.

Lemma lookup_gains_of (close : list F) i g :
  gains_of close !! i = Some g <->
  exists prev cur, close !! i = Some prev /\ close !! S i = Some cur /\
                   g = pymax (fsub cur prev) zero.
Proof.
  unfold gains_of. rewrite lookup_zip_with_Some. setoid_rewrite lookup_tail.
  split.
  - intros (prev & cur & -> & Hprev & Hcur). by exists prev, cur.
  - intros (prev & cur & Hprev & Hcur & ->). by exists prev, cur.
Qed.

Lemma lookup_losses_of (close : list F) i l :
  losses_of close !! i = Some l <->
  exists prev cur, close !! i = Some prev /\ close !! S i = Some cur /\
                   l = pymax (fneg (fsub cur prev)) zero.
Proof.
  unfold losses_of. rewrite lookup_zip_with_Some. setoid_rewrite lookup_tail.
  split.
  - intros (prev & cur & -> & Hprev & Hcur). by exists prev, cur.
  - intros (prev & cur & Hprev & Hcur & ->). by exists prev, cur.
Qed.

(** The first loop of [compute_rsi] never raises and collects the gains and
    the losses of the steps of the series. *)
Lemma gain_loss_loop (close : list F) :
  for_each (gain_loss close) (range 1 (len close))
  = Ok (zip (gains_of close) (losses_of close)).
Proof.
  apply for_each_Ok, Forall2_same_length_lookup_2.
  - rewrite length_range, length_zip, length_gains_of, length_losses_of.
    unfold len. lia.
  - intros i x [g l] Hx Hgl.
    apply lookup_seqZ in Hx as [-> Hi].
    apply lookup_zip_with_Some in Hgl as (g' & l' & [= <- <-] & Hg & Hl).
    apply lookup_gains_of in Hg as (prev & cur & Hprev & Hcur & ->).
    apply lookup_losses_of in Hl as (prev' & cur' & Hprev' & Hcur' & ->).
    simplify_eq. unfold gain_loss.
    rewrite (py_getitem_lookup close (1 + Z.of_nat i) cur); [|lia|].
    2:{ by replace (Z.to_nat (1 + Z.of_nat i)) with (S i) by lia. }
    simpl.
    rewrite (py_getitem_lookup close (1 + Z.of_nat i - 1) prev); [done|lia|].
    by replace (Z.to_nat (1 + Z.of_nat i - 1)) with i by lia.
Qed.

Lemma res_bind_Ok {A B} (a : A) (f : A -> res B) : Ok a ≫= f = f a.
Proof. reflexivity. Qed.

Lemma wilder_avg_S (xs : list F) period j :
  wilder_avg xs period (S j)
  = fquot (fadd (fmul (wilder_avg xs period j) (of_Z (period - 1)))
                (default zero (xs !! (Z.to_nat period + j)%nat)))
          (of_Z period).
Proof. reflexivity. Qed.

Lemma for_fold_cons {A S} (f : S -> A -> res S) (s : S) (x : A) (l : list A) :
  for_fold f s (x :: l) = f s x ≫= fun s' => for_fold f s' l.
Proof. reflexivity. Qed.

Lemma for_fold_app {A S} (f : S -> A -> res S) (s : S) (l1 l2 : list A) :
  for_fold f s (l1 ++ l2) = for_fold f s l1 ≫= fun s' => for_fold f s' l2.
Proof.
  revert s. induction l1 as [|x l1 IH]; intros s; simpl; [done|].
  destruct (f s x) as [s'|e]; simpl; [apply IH|done].
Qed.

(** The body of the second loop at an index in range, when [_rsi] returns. *)
Lemma rsi_step_Ok (gains losses : list F) period j vals r :
  1 <= period ->
  (Z.to_nat period + j < length gains)%nat -> length gains = length losses ->
  _rsi (wilder_avg gains period (S j)) (wilder_avg losses period (S j)) = Ok r ->
  rsi_step gains losses period
    (wilder_avg gains period j, wilder_avg losses period j, vals)
    (period + Z.of_nat j)
  = Ok (wilder_avg gains period (S j), wilder_avg losses period (S j),
        vals ++ [Some r]).
Proof.
  intros Hp Hj Hlen Hr. unfold rsi_step.
  destruct (lookup_lt_is_Some_2 gains (Z.to_nat period + j)) as [g Hg]; [lia|].
  destruct (lookup_lt_is_Some_2 losses (Z.to_nat period + j)) as [l Hl]; [lia|].
  assert (Z.to_nat (period + Z.of_nat j) = (Z.to_nat period + j)%nat) as Hi by lia.
  rewrite (py_getitem_lookup gains _ g), res_bind_Ok by (rewrite ?Hi; done || lia).
  rewrite (py_getitem_lookup losses _ l) by (rewrite ?Hi; done || lia).
  unfold wilder. rewrite !pydiv_int_Ok by lia.
  repeat (rewrite res_bind_Ok; cbv beta).
  rewrite !wilder_avg_S, Hg, Hl in Hr. rewrite !wilder_avg_S, Hg, Hl.
  change (default zero (Some g)) with g in *.
  change (default zero (Some l)) with l in *.
  rewrite pydiv_int_Ok by lia. rewrite res_bind_Ok; cbv beta.
  by rewrite Hr.
Qed.

End RsiLoops.

(** ** RSI in exact arithmetic *)

Section ExactRsi.
Context (rt : Q -> Q).
Local Open Scope Q_scope.
Local Abbreviation E := (exact_float rt).
#[local] Hint Extern 0 (PyFloat Q) => exact (exact_float rt) : typeclass_instances.

Lemma feqb_true (x y : Q) : @feqb Q E x y = true <-> x == y.
Proof. apply Qeq_bool_iff. Qed.

Lemma feqb_false (x y : Q) : @feqb Q E x y = false <-> ~ x == y.
Proof. rewrite <-feqb_true. by destruct (feqb x y). Qed.

Lemma fltb_true (x y : Q) : @fltb Q E x y = true <-> x < y.
Proof.
  simpl. rewrite negb_true_iff, <-not_true_iff_false, Qle_bool_iff.
  split; [apply Qnot_le_lt|apply Qlt_not_le].
Qed.

Lemma fltb_false (x y : Q) : @fltb Q E x y = false <-> y <= x.
Proof. simpl. rewrite negb_false_iff. apply Qle_bool_iff. Qed.

Lemma pymax_zero_cases (x : Q) :
  (x < 0 /\ pymax (H := E) x zero = 0) \/ (0 <= x /\ pymax (H := E) x zero = x).
Proof.
  unfold pymax. destruct (fltb x zero) eqn:Hlt.
  - left. by apply fltb_true in Hlt.
  - right. by apply fltb_false in Hlt.
Qed.

Lemma foldl_fadd_nonneg (a : Q) (xs : list Q) :
  0 <= a -> Forall (fun x => 0 <= x) xs -> 0 <= foldl (@fadd Q E) a xs.
Proof.
  intros Ha Hxs. revert a Ha. induction Hxs as [|x xs Hx _ IH]; intros a Ha; [done|].
  simpl. apply IH. rewrite Qred_correct. lra.
Qed.

Lemma foldl_fadd_zero (a : Q) (xs : list Q) :
  a == 0 -> Forall (fun x => x == 0) xs -> foldl (@fadd Q E) a xs == 0.
Proof.
  intros Ha Hxs. revert a Ha. induction Hxs as [|x xs Hx _ IH]; intros a Ha; [done|].
  simpl. apply IH. rewrite Qred_correct. lra.
Qed.

Lemma foldl_fadd_pos (a : Q) (xs : list Q) :
  0 <= a -> Forall (fun x => 0 < x) xs -> 0 < a \/ xs <> [] ->
  0 < foldl (@fadd Q E) a xs.
Proof.
  intros Ha Hxs. revert a Ha. induction Hxs as [|x xs Hx _ IH]; intros a Ha Hne.
  - by destruct Hne.
  - simpl. apply IH; [|left]; rewrite Qred_correct; lra.
Qed.

Lemma inject_Z_pos (z : Z) : (0 < z)%Z -> 0 < inject_Z z.
Proof. intros Hz. by rewrite Zlt_Qlt in Hz. Qed.

Lemma inject_Z_neg (z : Z) : (z < 0)%Z -> inject_Z z < 0.
Proof. intros Hz. by rewrite Zlt_Qlt in Hz. Qed.

Lemma inject_Z_nonneg (z : Z) : (0 <= z)%Z -> 0 <= inject_Z z.
Proof. intros Hz. by rewrite Zle_Qle in Hz. Qed.

(** A quotient of a value that is not negative by the period. *)
Lemma fquot_sign (period : Z) (s : Q) :
  0 <= s -> sign_of period (@fquot Q E s (of_Z period)).
Proof.
  intros Hs. split; intros Hp; simpl; rewrite Qred_correct.
  - apply inject_Z_pos in Hp. apply Qle_shift_div_l; [done|lra].
  - apply inject_Z_neg in Hp.
    assert (s / inject_Z period == (- s) / (- inject_Z period)) as ->
      by (field; lra).
    apply Qle_shift_div_r; lra.
Qed.

(** The numerator of a Wilder update is not negative. *)
Lemma wilder_numerator (period : Z) (avg x : Q) :
  (period <> 0)%Z -> sign_of period avg -> 0 <= x ->
  0 <= @fadd Q E (fmul avg (of_Z (period - 1))) x.
Proof.
  intros Hp [Hpos Hneg] Hx. simpl. rewrite !Qred_correct.
  destruct (Z.lt_total 0 period) as [Hp'|[Hp'|Hp']]; [|lia|].
  - specialize (Hpos Hp').
    assert (0 <= inject_Z (period - 1)) by (apply inject_Z_nonneg; lia).
    pose proof (Qmult_le_0_compat _ _ Hpos H). lra.
  - specialize (Hneg Hp').
    assert (inject_Z (period - 1) < 0) by (apply inject_Z_neg; lia).
    assert (0 <= (- avg) * (- inject_Z (period - 1)))
      by (apply Qmult_le_0_compat; lra).
    lra.
Qed.


Lemma quotient_nonneg (period : Z) (ag al : Q) :
  (period <> 0)%Z -> sign_of period ag -> sign_of period al -> ~ al == 0 ->
  0 <= ag / al.
Proof.
  intros Hp [Hg1 Hg2] [Hl1 Hl2] Hal.
  destruct (Z.lt_total 0 period) as [Hp'|[Hp'|Hp']]; [|lia|].
  - specialize (Hg1 Hp'). specialize (Hl1 Hp').
    apply Qle_shift_div_l; lra.
  - specialize (Hg2 Hp'). specialize (Hl2 Hp').
    assert (ag / al == (- ag) / (- al)) as -> by (field; lra).
    apply Qle_shift_div_l; lra.
Qed.

(** The third branch of [_rsi]. *)
Lemma _rsi_quotient (period : Z) (ag al : Q) :
  (period <> 0)%Z -> sign_of period ag -> sign_of period al -> ~ al == 0 ->
  exists r,
    (pydiv (H := E) ag al ≫= fun rs =>
     pydiv (of_Z 100) (fadd (of_Z 1) rs) ≫= fun q =>
     Ok (fround 2 (fsub (of_Z 100) q))) = Ok r /\
    0 <= r <= 100 /\
    r = Qround_digits 2 (100 - 100 / (1 + ag / al)).
Proof.
  intros Hp Hag Hal Hne.
  pose proof (quotient_nonneg period ag al Hp Hag Hal Hne) as Hrs.
  unfold pydiv. rewrite (proj2 (feqb_false al zero)) by done.
  rewrite res_bind_Ok; cbv beta.
  assert (~ @fadd Q E (of_Z 1) (fquot ag al) == 0) as Hne1.
  { simpl. rewrite !Qred_correct. change (inject_Z 1) with 1. lra. }
  rewrite (proj2 (feqb_false _ zero)) by done.
  rewrite res_bind_Ok; cbv beta.
  eexists. split; [reflexivity|].
  assert (@fsub Q E (of_Z 100) (fquot (of_Z 100) (fadd (of_Z 1) (fquot ag al)))
          == 100 - 100 / (1 + ag / al)) as Hx.
  { simpl. rewrite !Qred_correct. reflexivity. }
  assert (0 <= 100 / (1 + ag / al) <= 100) as [Hq1 Hq2].
  { split; [apply Qle_shift_div_l|apply Qle_shift_div_r]; lra. }
  split; [|apply Qround_digits_2_comp, Hx].
  change (@fround Q E 2) with (Qround_digits 2).
  set (x := fsub _ _) in *.
  pose proof (Qround_digits_2_mono (inject_Z 0) x) as Hlo.
  pose proof (Qround_digits_2_mono x (inject_Z 100)) as Hhi.
  rewrite Qround_digits_2_Z in Hlo, Hhi.
  change (inject_Z 0) with 0 in Hlo. change (inject_Z 100) with 100 in Hhi.
  split; [apply Hlo|apply Hhi]; lra.
Qed.

(** [_rsi] on averages that carry the sign of the period: it returns, the
    value lies between 0 and 100, and it is the one of the three branches. *)
Lemma _rsi_exact (period : Z) (ag al : Q) :
  (period <> 0)%Z -> sign_of period ag -> sign_of period al ->
  exists r, _rsi (H := E) ag al = Ok r /\
    0 <= r <= 100 /\
    (ag == 0 /\ al == 0 -> r = 50) /\
    (~ (ag == 0 /\ al == 0) -> al == 0 -> r = 100) /\
    (~ al == 0 -> r = Qround_digits 2 (100 - 100 / (1 + ag / al))).
Proof.
  intros Hp Hag Hal. unfold _rsi.
  destruct (feqb al zero) eqn:Ela.
  - apply feqb_true in Ela. change (@zero Q E) with 0 in Ela.
    destruct (feqb ag zero) eqn:Ega; simpl andb; cbv iota.
    + apply feqb_true in Ega. exists 50. split; [done|]. split; [lra|].
      split; [done|]. split; [|done]. intros Hn. destruct Hn. by split.
    + apply feqb_false in Ega. exists 100. split; [done|]. split; [lra|].
      split; [|done]. intros [Hn _]. by destruct Ega.
  - apply feqb_false in Ela. change (@zero Q E) with 0 in Ela.
    rewrite andb_false_r.
    destruct (_rsi_quotient period ag al) as (r & Hr & Hrange & Heq); [done..|].
    exists r. split; [done|]. split; [done|]. split; [|split; [|done]].
    + intros [_ Hn]. by destruct Ela.
    + intros _ Hn. by destruct Ela.
Qed.

Lemma gains_of_nonneg (close : list Q) :
  Forall (fun x => 0 <= x) (gains_of (H := E) close).
Proof.
  apply Forall_lookup. intros i g (prev & cur & _ & _ & ->)%lookup_gains_of.
  destruct (pymax_zero_cases (fsub cur prev)) as [[_ ->]|[Hd ->]]; [lra|done].
Qed.

Lemma losses_of_nonneg (close : list Q) :
  Forall (fun x => 0 <= x) (losses_of (H := E) close).
Proof.
  apply Forall_lookup. intros i l (prev & cur & _ & _ & ->)%lookup_losses_of.
  destruct (pymax_zero_cases (fneg (fsub cur prev))) as [[_ ->]|[Hd ->]]; [lra|done].
Qed.

Lemma pyslice_Forall {A} (P : A -> Prop) (l : list A) lo hi :
  Forall P l -> Forall P (pyslice l lo hi).
Proof. intros Hl. unfold pyslice. by apply Forall_take, Forall_drop. Qed.




End ExactRsi.


(** ** The series of [compute_rsi] for a period of at least one *)

Section ExactRsiSeries.
Context (rt : Q -> Q).
Local Open Scope Q_scope.
Local Abbreviation E := (exact_float rt).
#[local] Hint Extern 0 (PyFloat Q) => exact (exact_float rt) : typeclass_instances.

Lemma wilder_avg_sign (xs : list Q) (period : Z) (j : nat) :
  (period <> 0)%Z -> Forall (fun x => 0 <= x) xs ->
  sign_of period (wilder_avg (H := E) xs period j).
Proof.
  intros Hp Hxs. induction j as [|j IH].
  - apply fquot_sign, foldl_fadd_nonneg; [done|by apply Forall_take].
  - rewrite wilder_avg_S. apply fquot_sign, wilder_numerator; [done..|].
    destruct (xs !! _) as [x|] eqn:Hx; simpl; [|done].
    by eapply (proj1 (Forall_lookup _ _)).
Qed.

(** The second loop after [m] iterations, all of them in range. *)
Lemma rsi_loop (gains losses : list Q) (period : Z) (init : list (option Q)) (m : nat) :
  (1 <= period)%Z ->
  Forall (fun x => 0 <= x) gains -> Forall (fun x => 0 <= x) losses ->
  length gains = length losses ->
  (Z.to_nat period + m <= length gains)%nat ->
  exists vals,
    for_fold (rsi_step (H := E) gains losses period)
             (wilder_avg gains period 0, wilder_avg losses period 0, init)
             (seqZ period (Z.of_nat m))
    = Ok (wilder_avg gains period m, wilder_avg losses period m, init ++ vals) /\
    length vals = m /\
    forall j, (j < m)%nat ->
      exists r, vals !! j = Some (Some r) /\
        _rsi (wilder_avg gains period (S j)) (wilder_avg losses period (S j)) = Ok r.
Proof.
  intros Hp Hg Hl Hlen. induction m as [|m IH]; intros Hm.
  - exists []. rewrite app_nil_r. split; [done|]. split; [done|]. lia.
  - destruct IH as (vals & Hfold & Hvals & Hspec); [lia|].
    destruct (_rsi_exact rt period (wilder_avg gains period (S m))
                (wilder_avg losses period (S m)))
      as (r & Hr & _); [lia|by apply wilder_avg_sign; [lia|]..|].
    exists (vals ++ [Some r]).
    rewrite seqZ_S, for_fold_app, Hfold, res_bind_Ok, for_fold_cons.
    rewrite (rsi_step_Ok gains losses period m (init ++ vals) r); [|done|lia|done..].
    rewrite res_bind_Ok, (assoc_L (++)). split; [done|].
    split; [rewrite length_app; simpl; lia|].
    intros j Hj. destruct (decide (j = m)) as [->|Hne].
    + exists r. split; [|done].
      rewrite lookup_app_r by lia. by rewrite Hvals, Nat.sub_diag.
    + destruct (Hspec j) as (r' & Hr' & Hrsi); [lia|].
      exists r'. split; [|done]. by apply lookup_app_l_Some.
Qed.

Lemma compute_rsi_spec (close : list Q) (period : Z) :
  (1 <= period)%Z -> (period + 1 <= len close)%Z ->
  exists vs,
    compute_rsi (H := E) close period = Ok vs /\
    length vs = length close /\
    (forall i, (i < Z.to_nat period)%nat -> vs !! i = Some None) /\
    (forall j, (Z.to_nat period + j < length close)%nat ->
       exists r, vs !! (Z.to_nat period + j)%nat = Some (Some r) /\
         _rsi (wilder_avg (gains_of close) period j)
              (wilder_avg (losses_of close) period j) = Ok r).
Proof.
  intros Hp Hlen. unfold compute_rsi.
  destruct (Z.ltb_spec (len close) (period + 1)) as [?|_]; [lia|].
  rewrite gain_loss_loop, res_bind_Ok; cbv beta.
  rewrite fst_zip, snd_zip by (rewrite length_gains_of, length_losses_of; lia).
  set (gains := gains_of close). set (losses := losses_of close).
  assert (length gains = pred (length close)) as Hlg by apply length_gains_of.
  assert (length losses = pred (length close)) as Hll by apply length_losses_of.
  unfold len in Hlen.
  rewrite !pyslice_prefix, !pydiv_int_Ok by lia.
  rewrite !res_bind_Ok; cbv beta.
  change (fquot (pysum (take (Z.to_nat period) gains)) (of_Z period))
    with (wilder_avg gains period 0).
  change (fquot (pysum (take (Z.to_nat period) losses)) (of_Z period))
    with (wilder_avg losses period 0).
  destruct (_rsi_exact rt period (wilder_avg gains period 0)
              (wilder_avg losses period 0))
    as (r0 & Hr0 & _);
    [lia|apply wilder_avg_sign; [lia|apply gains_of_nonneg]
        |apply wilder_avg_sign; [lia|apply losses_of_nonneg]|].
  rewrite Hr0, res_bind_Ok; cbv beta.
  destruct (rsi_loop gains losses period (pyrepeat None period ++ [Some r0])
              (length gains - Z.to_nat period))
    as (vals & Hfold & Hvals & Hspec);
    [done|apply gains_of_nonneg|apply losses_of_nonneg|lia|lia|].
  unfold range.
  replace (len gains - period)%Z
    with (Z.of_nat (length gains - Z.to_nat period)) by (unfold len; lia).
  rewrite Hfold, res_bind_Ok. simpl.
  eexists. split; [reflexivity|].
  split; [rewrite !length_app, length_pyrepeat, Hvals; simpl; lia|].
  split.
  - intros i Hi. rewrite <-(assoc_L (++)).
    rewrite lookup_app_l by (rewrite length_pyrepeat; lia).
    by apply lookup_replicate_2.
  - intros [|j] Hj.
    + exists r0. split; [|done]. rewrite Nat.add_0_r.
      apply lookup_app_l_Some. rewrite lookup_app_r; rewrite length_pyrepeat; [|lia].
      by rewrite Nat.sub_diag.
    + destruct (Hspec j) as (r & Hr & Hrsi); [lia|].
      exists r. split; [|done].
      rewrite lookup_app_r; rewrite length_app, length_pyrepeat; simpl; [|lia].
      by replace (Z.to_nat period + S j - (Z.to_nat period + 1))%nat with j by lia.
Qed.

(** C1: for a look-back period of at least one and a series of at least
    [period + 1] closes, in exact arithmetic, [compute_rsi] returns,
    and every defined value (index [period] and later) follows the policy on
    Wilder's averages at that index: 50 when both averages are zero; else 100
    when the average loss is zero; else [100 - 100/(1 + avg_gain/avg_loss)]
    rounded to two decimals. *)
Theorem rsi_policy (close : list Q) (period : Z) :
  (1 <= period)%Z -> (period + 1 <= len close)%Z ->
  exists vs,
    compute_rsi (H := E) close period = Ok vs /\
    forall i, (period <= i < len close)%Z ->
      exists v, vs !! Z.to_nat i = Some (Some v) /\
        let avg_gain :=
          wilder_avg (gains_of close) period (Z.to_nat (i - period)) in
        let avg_loss :=
          wilder_avg (losses_of close) period (Z.to_nat (i - period)) in
        (avg_gain == 0 /\ avg_loss == 0 -> v = 50) /\
        (~ (avg_gain == 0 /\ avg_loss == 0) -> avg_loss == 0 -> v = 100) /\
        (~ avg_loss == 0 ->
         v = Qround_digits 2 (100 - 100 / (1 + avg_gain / avg_loss))).
Proof.
  intros Hp Hlen.
  destruct (compute_rsi_spec close period Hp Hlen) as (vs & Hvs & _ & _ & Hdef).
  exists vs. split; [done|]. intros i Hi.
  destruct (Hdef (Z.to_nat (i - period))) as (r & Hr & Hrsi);
    [unfold len in Hi; lia|].
  exists r. split.
  { by replace (Z.to_nat i) with (Z.to_nat period + Z.to_nat (i - period))%nat by lia. }
  destruct (_rsi_exact rt period
              (wilder_avg (gains_of close) period (Z.to_nat (i - period)))
              (wilder_avg (losses_of close) period (Z.to_nat (i - period))))
    as (r' & Hr' & _ & Hpolicy);
    [lia|apply wilder_avg_sign; [lia|apply gains_of_nonneg]
        |apply wilder_avg_sign; [lia|apply losses_of_nonneg]|].
  rewrite Hrsi in Hr'. injection Hr' as <-. exact Hpolicy.
Qed.

Lemma wilder_avg_zero (xs : list Q) (period : Z) (j : nat) :
  Forall (fun x => x == 0) xs -> wilder_avg (H := E) xs period j == 0.
Proof.
  intros Hxs. induction j as [|j IH].
  - simpl. rewrite Qred_correct.
    rewrite (foldl_fadd_zero rt 0 (take (Z.to_nat period) xs)).
    + unfold Qdiv. ring.
    + reflexivity.
    + by apply Forall_take.
  - rewrite wilder_avg_S. simpl. rewrite !Qred_correct, IH.
    assert (default (@zero Q E) (xs !! (Z.to_nat period + j)%nat) == 0) as Hd.
    { destruct (xs !! _) as [x|] eqn:Hx; simpl; [|reflexivity].
      exact (proj1 (Forall_lookup _ _) Hxs _ _ Hx). }
    rewrite Hd. unfold Qdiv. ring.
Qed.

Lemma wilder_avg_pos (xs : list Q) (period : Z) (j : nat) :
  (1 <= period)%Z -> Forall (fun x => 0 < x) xs ->
  (Z.to_nat period + j <= length xs)%nat ->
  0 < wilder_avg (H := E) xs period j.
Proof.
  intros Hp Hxs. assert (0 < inject_Z period) as Hp' by (apply inject_Z_pos; lia).
  induction j as [|j IH]; intros Hj.
  - simpl. rewrite Qred_correct. apply Qlt_shift_div_l; [done|].
    rewrite Qmult_0_l. apply foldl_fadd_pos; [done|by apply Forall_take|].
    right. intros Hnil%(f_equal length). rewrite length_take in Hnil.
    simpl in Hnil. lia.
  - rewrite wilder_avg_S. simpl. rewrite !Qred_correct.
    destruct (lookup_lt_is_Some_2 xs (Z.to_nat period + j)) as [x Hx]; [lia|].
    rewrite Hx. simpl.
    pose proof (proj1 (Forall_lookup _ _) Hxs _ _ Hx) as Hx0. simpl in Hx0.
    assert (0 <= inject_Z (period - 1)) as Hp1 by (apply inject_Z_nonneg; lia).
    assert (0 < wilder_avg xs period j) as Havg by (apply IH; lia).
    pose proof (Qmult_le_0_compat _ _ (Qlt_le_weak _ _ Havg) Hp1).
    apply Qlt_shift_div_l; [done|]. lra.
Qed.

Lemma flat_steps (close : list Q) :
  (forall x y, x ∈ close -> y ∈ close -> x == y) ->
  Forall (fun x => x == 0) (gains_of (H := E) close) /\
  Forall (fun x => x == 0) (losses_of (H := E) close).
Proof.
  intros Hflat. split; apply Forall_lookup; intros i z.
  - intros (prev & cur & Hprev & Hcur & ->)%lookup_gains_of.
    assert (cur == prev) as Heq
      by (eapply Hflat; by eapply list_elem_of_lookup_2).
    assert (@fsub Q E cur prev == 0) as Hd by (simpl; rewrite Qred_correct; lra).
    destruct (pymax_zero_cases rt (fsub cur prev)) as [[_ ->]|[_ ->]]; done.
  - intros (prev & cur & Hprev & Hcur & ->)%lookup_losses_of.
    assert (cur == prev) as Heq
      by (eapply Hflat; by eapply list_elem_of_lookup_2).
    assert (@fneg Q E (fsub cur prev) == 0) as Hd
      by (simpl; rewrite !Qred_correct; lra).
    destruct (pymax_zero_cases rt (fneg (fsub cur prev))) as [[_ ->]|[_ ->]]; done.
Qed.

Lemma rising_steps (close : list Q) :
  (forall i a b, close !! i = Some a -> close !! S i = Some b -> a < b) ->
  Forall (fun x => 0 < x) (gains_of (H := E) close) /\
  Forall (fun x => x == 0) (losses_of (H := E) close).
Proof.
  intros Hup. split; apply Forall_lookup; intros i z.
  - intros (prev & cur & Hprev & Hcur & ->)%lookup_gains_of.
    pose proof (Hup _ _ _ Hprev Hcur) as Hlt.
    assert (0 < @fsub Q E cur prev) as Hd by (simpl; rewrite Qred_correct; lra).
    destruct (pymax_zero_cases rt (fsub cur prev)) as [[? _]|[_ ->]]; [lra|done].
  - intros (prev & cur & Hprev & Hcur & ->)%lookup_losses_of.
    pose proof (Hup _ _ _ Hprev Hcur) as Hlt.
    assert (@fneg Q E (fsub cur prev) < 0) as Hd
      by (simpl; rewrite !Qred_correct; lra).
    destruct (pymax_zero_cases rt (fneg (fsub cur prev))) as [[_ ->]|[? _]]; [done|lra].
Qed.

Lemma falling_steps (close : list Q) :
  (forall i a b, close !! i = Some a -> close !! S i = Some b -> b < a) ->
  Forall (fun x => x == 0) (gains_of (H := E) close) /\
  Forall (fun x => 0 < x) (losses_of (H := E) close).
Proof.
  intros Hdown. split; apply Forall_lookup; intros i z.
  - intros (prev & cur & Hprev & Hcur & ->)%lookup_gains_of.
    pose proof (Hdown _ _ _ Hprev Hcur) as Hlt.
    assert (@fsub Q E cur prev < 0) as Hd by (simpl; rewrite Qred_correct; lra).
    destruct (pymax_zero_cases rt (fsub cur prev)) as [[_ ->]|[? _]]; [done|lra].
  - intros (prev & cur & Hprev & Hcur & ->)%lookup_losses_of.
    pose proof (Hdown _ _ _ Hprev Hcur) as Hlt.
    assert (0 < @fneg Q E (fsub cur prev)) as Hd
      by (simpl; rewrite !Qred_correct; lra).
    destruct (pymax_zero_cases rt (fneg (fsub cur prev))) as [[? _]|[_ ->]]; [lra|done].
Qed.

(** Every non-null value of the series is the value of [_rsi] at some pair
    of Wilder averages within the series. *)
Lemma compute_rsi_values (close : list Q) (period : Z) :
  (1 <= period)%Z -> (period + 1 <= len close)%Z ->
  exists vs,
    compute_rsi (H := E) close period = Ok vs /\
    forall v, Some v ∈ vs ->
      exists j, (Z.to_nat period + j < length close)%nat /\
        _rsi (wilder_avg (gains_of close) period j)
             (wilder_avg (losses_of close) period j) = Ok v.
Proof.
  intros Hp Hlen.
  destruct (compute_rsi_spec close period Hp Hlen)
    as (vs & Hvs & Hlenvs & Hnone & Hdef).
  exists vs. split; [done|]. intros v [i Hi]%list_elem_of_lookup.
  pose proof (lookup_lt_Some _ _ _ Hi) as Hlt.
  destruct (decide (i < Z.to_nat period)%nat) as [Hsmall|Hbig].
  { rewrite Hnone in Hi by done. discriminate. }
  exists (i - Z.to_nat period)%nat. split; [lia|].
  destruct (Hdef (i - Z.to_nat period)%nat) as (r & Hr & Hrsi); [lia|].
  replace (Z.to_nat period + (i - Z.to_nat period))%nat with i in Hr by lia.
  rewrite Hi in Hr. by injection Hr as ->.
Qed.

(** C8: for a look-back period of at least one and a series of at least
    [period + 1] closes, in exact arithmetic, [compute_rsi] returns a
    series whose non-null values are all 50 when the closes are all equal,
    all 100 when the closes are strictly increasing, and all 0 when the
    closes are strictly decreasing. *)
Theorem rsi_flat_rising_falling (close : list Q) (period : Z) :
  (1 <= period)%Z -> (period + 1 <= len close)%Z ->
  exists vs,
    compute_rsi (H := E) close period = Ok vs /\
    ((forall x y, x ∈ close -> y ∈ close -> x == y) ->
     forall v, Some v ∈ vs -> v = 50) /\
    ((forall i a b, close !! i = Some a -> close !! S i = Some b -> a < b) ->
     forall v, Some v ∈ vs -> v = 100) /\
    ((forall i a b, close !! i = Some a -> close !! S i = Some b -> b < a) ->
     forall v, Some v ∈ vs -> v = 0).
Proof.
  intros Hp Hlen.
  destruct (compute_rsi_values close period Hp Hlen) as (vs & Hvs & Hvals).
  exists vs. split; [done|].
  assert (forall v, Some v ∈ vs ->
    exists j, (Z.to_nat period + j < length close)%nat /\
      (wilder_avg (gains_of close) period j == 0 /\
       wilder_avg (losses_of close) period j == 0 -> v = 50) /\
      (~ (wilder_avg (gains_of close) period j == 0 /\
          wilder_avg (losses_of close) period j == 0) ->
       wilder_avg (losses_of close) period j == 0 -> v = 100) /\
      (~ wilder_avg (losses_of close) period j == 0 ->
       v = Qround_digits 2
             (100 - 100 / (1 + wilder_avg (gains_of close) period j
                                / wilder_avg (losses_of close) period j))))
    as Hpolicy.
  { intros v (j & Hj & Hrsi)%Hvals. exists j. split; [done|].
    destruct (_rsi_exact rt period (wilder_avg (gains_of close) period j)
                (wilder_avg (losses_of close) period j))
      as (r' & Hr' & _ & Hpol);
      [lia|apply wilder_avg_sign; [lia|apply gains_of_nonneg]
          |apply wilder_avg_sign; [lia|apply losses_of_nonneg]|].
    rewrite Hrsi in Hr'. by injection Hr' as <-. }
  split; [|split].
  - intros [Hg Hl]%flat_steps v (j & Hj & Hboth & _)%Hpolicy.
    apply Hboth. split; by apply wilder_avg_zero.
  - intros [Hg Hl]%rising_steps v (j & Hj & _ & Hgain & _)%Hpolicy.
    pose proof (wilder_avg_pos (gains_of close) period j Hp Hg) as Hpos.
    rewrite length_gains_of in Hpos.
    apply Hgain; [|by apply wilder_avg_zero].
    intros [Hz _]. rewrite Hz in Hpos. apply (Qlt_irrefl 0), Hpos. lia.
  - intros [Hg Hl]%falling_steps v (j & Hj & _ & _ & Hloss)%Hpolicy.
    pose proof (wilder_avg_pos (losses_of close) period j Hp Hl) as Hpos.
    rewrite length_losses_of in Hpos.
    pose proof (wilder_avg_zero (gains_of close) period j Hg) as Hz.
    rewrite Hloss by (intros Hzl; rewrite Hzl in Hpos; apply (Qlt_irrefl 0), Hpos; lia).
    change 0 with (inject_Z 0). rewrite <-(Qround_digits_2_Z 0).
    apply Qround_digits_2_comp. rewrite Hz. change (inject_Z 0) with 0.
    field. intros Hzl. rewrite Hzl in Hpos. apply (Qlt_irrefl 0), Hpos. lia.
Qed.

End ExactRsiSeries.

(** C1 at a series of seven closes and a period of three: the first defined
    value comes from the third branch. *)
Lemma rsi_policy_witness :
  1 <= 3 /\ 3 + 1 <= len [1; 3; 2; 5; 4; 4; 7]%Q /\
  exists vs,
    compute_rsi (H := exact_float sqrt6) [1; 3; 2; 5; 4; 4; 7]%Q 3 = Ok vs /\
    vs !! 3%nat = Some (Some 83.33%Q).
Proof.
  split; [lia|]. split; [vm_compute; congruence|].
  destruct (rsi_policy sqrt6 [1; 3; 2; 5; 4; 4; 7]%Q 3)
    as (vs & Hvs & Hpolicy); [lia|vm_compute; congruence|].
  exists vs. split; [exact Hvs|].
  destruct (Hpolicy 3) as (v & Hv & _ & _ & Hthird); [vm_compute; split; congruence|].
  change (Z.to_nat 3) with 3%nat in Hv.
  rewrite Hv, Hthird; [vm_compute; reflexivity|]. vm_compute. congruence.
Defined.

(** C8 at three series of four closes and a period of two: a flat one, a
    rising one and a falling one. *)
Lemma rsi_flat_rising_falling_witness :
  1 <= 2 /\ 2 + 1 <= len [5; 5; 5; 5]%Q /\
  (exists vs, compute_rsi (H := exact_float sqrt6) [5; 5; 5; 5]%Q 2 = Ok vs /\
              forall v, Some v ∈ vs -> v = 50%Q) /\
  (exists vs, compute_rsi (H := exact_float sqrt6) [1; 2; 3; 4]%Q 2 = Ok vs /\
              forall v, Some v ∈ vs -> v = 100%Q) /\
  (exists vs, compute_rsi (H := exact_float sqrt6) [4; 3; 2; 1]%Q 2 = Ok vs /\
              forall v, Some v ∈ vs -> v = 0%Q).
Proof.
  split; [lia|]. split; [vm_compute; congruence|]. split; [|split].
  - destruct (rsi_flat_rising_falling sqrt6 [5; 5; 5; 5]%Q 2)
      as (vs & Hvs & Hflat & _); [lia|vm_compute; congruence|].
    exists vs. split; [exact Hvs|]. apply Hflat.
    intros x y Hx Hy.
    assert (forall z, z ∈ [5; 5; 5; 5]%Q -> z = 5%Q) as Hfive.
    { intros z Hz. repeat (apply elem_of_cons in Hz as [->|Hz]; [reflexivity|]).
      by apply elem_of_nil in Hz. }
    rewrite (Hfive x Hx), (Hfive y Hy). reflexivity.
  - destruct (rsi_flat_rising_falling sqrt6 [1; 2; 3; 4]%Q 2)
      as (vs & Hvs & _ & Hrising & _); [lia|vm_compute; congruence|].
    exists vs. split; [exact Hvs|]. apply Hrising.
    intros i a b Ha Hb.
    do 3 (destruct i as [|i]; [injection Ha as <-; injection Hb as <-; reflexivity|]).
    destruct i; discriminate.
  - destruct (rsi_flat_rising_falling sqrt6 [4; 3; 2; 1]%Q 2)
      as (vs & Hvs & _ & _ & Hfalling); [lia|vm_compute; congruence|].
    exists vs. split; [exact Hvs|]. apply Hfalling.
    intros i a b Ha Hb.
    do 3 (destruct i as [|i]; [injection Ha as <-; injection Hb as <-; reflexivity|]).
    destruct i; discriminate.
Defined.

(** C5 at twenty closes: nineteen times 1 and then 1.25. *)
Lemma latest_fields_witness :
  exists s,
    compute_indicators (H := exact_float sqrt6)
      [] (replicate 19 1%Q ++ [5 # 4]%Q) [] [] [] = Ok s /\
    reports_rounded (H := exact_float sqrt6)
      (Summary.sma_20 s) (Latest.sma_20 (Summary.latest s)) /\
    reports_last (Bands.upper (Summary.bollinger_bands s))
      (Latest.bb_upper (Summary.latest s)).
Proof.
  destruct (compute_indicators (H := exact_float sqrt6)
              [] (replicate 19 1%Q ++ [5 # 4]%Q) [] [] []) as [s|e] eqn:Hs;
    [|vm_compute in Hs; discriminate Hs].
  exists s. split; [reflexivity|].
  pose proof (latest_fields (H := exact_float sqrt6) _ _ _ _ _ s Hs)
    as (_ & _ & Hupper & _ & _ & Hsma & _).
  split; [exact Hsma|exact Hupper].
Defined.

(** C5 as stated fails.  By design the latest moving averages are rounded:
    for nineteen closes of 1 and one of 1.25 the last value of the SMA(20)
    series is 1.0125 and the latest field is 1.01.  And a last RSI of zero is
    dropped: for the closes 21, 20, ..., 1 the series ends in 0 and the
    latest field is null. *)
Lemma latest_fields_counterexample :
  (exists s,
     compute_indicators (H := exact_float sqrt6)
       [] (replicate 19 1%Q ++ [5 # 4]%Q) [] [] [] = Ok s /\
     last_valid (Summary.sma_20 s) = Some (81 # 80)%Q /\
     Latest.sma_20 (Summary.latest s) = Some (101 # 100)%Q) /\
  (exists s,
     compute_indicators (H := exact_float sqrt6)
       [] (inject_Z <$> reverse (seqZ 1 21)) [] [] [] = Ok s /\
     last_valid (Summary.rsi s) = Some 0%Q /\
     Latest.rsi (Summary.latest s) = None).
Proof.
  split; eexists; (split; [vm_compute; reflexivity|]);
    split; vm_compute; reflexivity.
Qed.

(** ** Bollinger bands *)

Section BandsLoops.
Context {F : Type} `{PyFloat F}.

Lemma for_each_pure {A B} (g : A -> B) (l : list A) :
  for_each (fun x => Ok (g x)) l = Ok (g <$> l).
Proof. induction l as [|x l IH]; simpl; [done|]. by rewrite IH. Qed.

(** The defined positions of the series of [_sma]. *)
Lemma sma_defined (values : list F) period :
  1 <= period ->
  exists r,
    _sma values period = Ok r /\
    forall i, period - 1 <= i < len values ->
      r !! Z.to_nat i = Some (Some (mean (window values period i))).
Proof.
  intros Hp.
  destruct (sma_tail values period Hp) as (tail & Htail & Hlt & Hpos).
  exists (pyrepeat None (period - 1) ++ tail). split.
  { unfold _sma. by rewrite Htail. }
  intros i Hi. rewrite lookup_app_r; rewrite length_pyrepeat; [|lia].
  rewrite Hpos by lia. do 4 f_equal. lia.
Qed.

(** The rows of [compute_bollinger_bands], when its loop returns. *)
Lemma bollinger_rows (close : list F) period std_dev rows :
  for_each (bollinger_at close period std_dev)
           (range (period - 1) (len close)) = Ok rows ->
  length rows = Z.to_nat (len close - (period - 1)) /\
  forall j row, rows !! j = Some row ->
    bollinger_at close period std_dev (period - 1 + Z.of_nat j) = Ok row.
Proof.
  intros Hrows. pose proof (for_each_length _ _ _ Hrows) as Hlen.
  rewrite length_range in Hlen. split; [done|].
  intros j row Hrow. pose proof (lookup_lt_Some _ _ _ Hrow) as Hj.
  destruct (for_each_lookup _ _ _ j (period - 1 + Z.of_nat j) Hrows)
    as (row' & Hrow' & Hat).
  { apply lookup_range. lia. }
  rewrite Hrow in Hrow'. by injection Hrow' as <-.
Qed.

End BandsLoops.

Section ExactBands.
Context (rt : Q -> Q).
Local Open Scope Q_scope.
Local Abbreviation E := (exact_float rt).
#[local] Hint Extern 0 (PyFloat Q) => exact (exact_float rt) : typeclass_instances.

(** One row in exact arithmetic: squaring never overflows, and the variance
    is not negative, so [math.sqrt] returns. *)
Lemma bollinger_at_exact (close : list Q) (period : Z) (std_dev : Q) (i : Z) :
  (1 <= period)%Z ->
  exists sma var,
    sma_at (H := E) close period i = Ok sma /\
    0 <= var /\
    bollinger_at (H := E) close period std_dev i
    = Ok (Qround_digits 2 sma,
          Qround_digits 2 (fadd sma (fmul std_dev (rt var))),
          Qround_digits 2 (fsub sma (fmul std_dev (rt var)))).
Proof.
  intros Hp. unfold bollinger_at, sma_at.
  rewrite pydiv_int_Ok by lia. rewrite res_bind_Ok; cbv beta.
  set (w := pyslice close _ _). set (sma := fquot (pysum w) (of_Z period)).
  change (fun p : Q => fsquare (fsub p sma))
    with (fun p : Q => Ok (Qred (Qred (p - sma) * Qred (p - sma)))).
  rewrite for_each_pure, res_bind_Ok; cbv beta.
  rewrite pydiv_int_Ok by lia. rewrite res_bind_Ok; cbv beta.
  set (var := fquot _ (of_Z period)).
  assert (0 <= var) as Hvar.
  { destruct (fquot_sign rt period
                (pysum ((fun p => Qred (Qred (p - sma) * Qred (p - sma))) <$> w)))
      as [Hpos _]; [|apply Hpos; lia].
    apply foldl_fadd_nonneg; [done|].
    apply Forall_fmap, Forall_forall. intros p _. simpl.
    rewrite Qred_correct. set (d := Qred (p - sma)). nra. }
  exists sma, var. split; [done|]. split; [done|].
  unfold msqrt at 1. simpl.
  rewrite (proj2 (Qle_bool_iff 0 var) Hvar). reflexivity.
Qed.

(** The three bands, position by position. *)
Lemma bollinger_series (close : list Q) (period : Z) (std_dev : Q) :
  (1 <= period)%Z -> (period <= len close)%Z ->
  exists b,
    compute_bollinger_bands (H := E) close period std_dev = Ok b /\
    length (Bands.upper b) = Z.to_nat (len close - period + 1) /\
    length (Bands.middle b) = Z.to_nat (len close - period + 1) /\
    length (Bands.lower b) = Z.to_nat (len close - period + 1) /\
    forall j, (j < Z.to_nat (len close - period + 1))%nat ->
      exists sma var,
        sma_at (H := E) close period (period - 1 + Z.of_nat j) = Ok sma /\
        0 <= var /\
        Bands.middle b !! j = Some (Qround_digits 2 sma) /\
        Bands.upper b !! j
        = Some (Qround_digits 2 (fadd sma (fmul std_dev (rt var)))) /\
        Bands.lower b !! j
        = Some (Qround_digits 2 (fsub sma (fmul std_dev (rt var)))).
Proof.
  intros Hp Hlen. unfold compute_bollinger_bands.
  destruct (Z.ltb_spec (len close) period) as [?|_]; [lia|].
  destruct (for_each_total (bollinger_at (H := E) close period std_dev)
              (range (period - 1) (len close))) as [rows Hrows].
  { intros i _.
    destruct (bollinger_at_exact close period std_dev i Hp) as (? & ? & _ & _ & ->).
    by eexists. }
  rewrite Hrows, res_bind_Ok.
  destruct (bollinger_rows _ _ _ _ Hrows) as [Hlr Hrow].
  eexists. split; [reflexivity|]. simpl.
  rewrite !length_fmap, Hlr.
  replace (len close - (period - 1))%Z with (len close - period + 1)%Z by lia.
  split; [done|]. split; [done|]. split; [done|].
  intros j Hj.
  destruct (lookup_lt_is_Some_2 rows j) as [row Hr]; [lia|].
  destruct (bollinger_at_exact close period std_dev (period - 1 + Z.of_nat j) Hp)
    as (sma & var & Hsma & Hvar & Hat).
  rewrite (Hrow j row Hr) in Hat. injection Hat as ->.
  exists sma, var. rewrite !list_lookup_fmap, Hr. by simpl.
Qed.


(** C10: in exact arithmetic, for a window of at least one and a series of
    at least [period] closes, the middle band at [j] is
    the simple moving average at [j + period - 1], rounded to two decimals. *)
Theorem bollinger_middle_is_sma (close : list Q) (period : Z) (std_dev : Q) :
  (1 <= period)%Z -> (period <= len close)%Z ->
  exists b smas,
    compute_bollinger_bands (H := E) close period std_dev = Ok b /\
    _sma (H := E) close period = Ok smas /\
    forall j, (0 <= j <= len close - period)%Z ->
      exists s,
        smas !! Z.to_nat (j + period - 1) = Some (Some s) /\
        Bands.middle b !! Z.to_nat j = Some (Qround_digits 2 s).
Proof.
  intros Hp Hlen.
  destruct (bollinger_series close period std_dev Hp Hlen)
    as (b & Hb & _ & _ & _ & Hpos).
  destruct (sma_defined (H := E) close period Hp) as (smas & Hsmas & Hdef).
  exists b, smas. split; [done|]. split; [done|]. intros j Hj.
  destruct (Hpos (Z.to_nat j)) as (sma & var & Hsma & _ & Hm & _); [lia|].
  rewrite Z2Nat.id in Hsma by lia.
  rewrite sma_at_mean in Hsma by lia. injection Hsma as <-.
  eexists. split; [|exact Hm].
  replace (j + period - 1)%Z with (period - 1 + j)%Z by lia.
  apply Hdef. lia.
Qed.

End ExactBands.



(** C10 at five closes and a window of three: the third value of the middle
    band is the rounded fifth value of the moving average. *)
Lemma bollinger_middle_is_sma_witness :
  1 <= 3 /\ 3 <= len [10; 11; 12; 13; 15]%Q /\
  exists b smas,
    compute_bollinger_bands (H := exact_float sqrt6)
      [10; 11; 12; 13; 15]%Q 3 2%Q = Ok b /\
    _sma (H := exact_float sqrt6) [10; 11; 12; 13; 15]%Q 3 = Ok smas /\
    exists s, smas !! 4%nat = Some (Some s) /\
              Bands.middle b !! 2%nat = Some (Qround_digits 2 s).
Proof.
  split; [lia|]. split; [vm_compute; congruence|].
  destruct (bollinger_middle_is_sma sqrt6 [10; 11; 12; 13; 15]%Q 3 2%Q)
    as (b & smas & Hb & Hsmas & Hmid); [lia|vm_compute; congruence|].
  exists b, smas. split; [exact Hb|]. split; [exact Hsmas|].
  apply (Hmid 2). vm_compute. split; congruence.
Defined.

(** ** MACD *)

Section MacdLoops.
Context {F : Type} `{PyFloat F}.

Lemma length_ema_loop (k prev : F) (ps : list F) :
  length (ema_loop k prev ps) = length ps.
Proof. revert prev. induction ps as [|p ps IH]; intros prev; simpl; [done|]. by rewrite IH. Qed.

Lemma ema_loop_Forall (P : F -> Prop) (k prev : F) (ps : list F) :
  P prev ->
  (forall p e, p ∈ ps -> P e -> P (fadd (fmul p k) (fmul e (fsub (of_Z 1) k)))) ->
  Forall P (ema_loop k prev ps).
Proof.
  revert prev. induction ps as [|p ps IH]; intros prev Hprev Hstep; simpl; [done|].
  assert (P (fadd (fmul p k) (fmul prev (fsub (of_Z 1) k)))) as He
    by (apply Hstep; [left|done]).
  constructor; [done|]. apply IH; [done|].
  intros p' e Hp'. apply Hstep. by right.
Qed.

Lemma _ema_Ok (prices : list F) (period : Z) :
  1 <= period -> period <= len prices ->
  _ema prices period = Ok (ema_series prices period).
Proof.
  intros Hp Hlen. unfold _ema.
  destruct (Z.ltb_spec (len prices) period) as [?|_]; [lia|].
  rewrite !pydiv_int_Ok by lia. rewrite res_bind_Ok; cbv beta.
  rewrite res_bind_Ok; cbv beta.
  by rewrite pyslice_prefix, pyslice_suffix by lia.
Qed.

Lemma length_ema_series (prices : list F) (period : Z) :
  length (ema_series prices period) = S (length prices - Z.to_nat period).
Proof. unfold ema_series. simpl. by rewrite length_ema_loop, length_drop. Qed.

Lemma length_macd_line_of (close : list F) :
  (26 <= length close)%nat -> length (macd_line_of close) = (length close - 25)%nat.
Proof.
  intros Hlen. unfold macd_line_of.
  rewrite length_zip_with, length_drop, !length_ema_series.
  change (Z.to_nat 12) with 12%nat. change (Z.to_nat 26) with 26%nat. lia.
Qed.

(** [compute_macd] with the default periods returns for every series. *)
Lemma compute_macd_default (close : list F) :
  35 <= len close ->
  compute_macd close 12 26 9
  = Ok (Macd.mk (fround 4 <$> drop 8 (macd_line_of close))
                (fround 4 <$> signal_line_of close)
                (zip_with (fun m s => fround 4 (fsub m s))
                          (drop 8 (macd_line_of close)) (signal_line_of close))).
Proof.
  intros Hlen. unfold compute_macd.
  destruct (Z.ltb_spec (len close) (26 + 9)) as [?|_]; [lia|].
  rewrite !_ema_Ok by lia. rewrite !res_bind_Ok; cbv beta.
  change (26 - 12) with 14. change (9 - 1) with 8.
  rewrite !pyslice_suffix by lia.
  change (Z.to_nat 14) with 14%nat. change (Z.to_nat 8) with 8%nat.
  fold (macd_line_of close).
  rewrite _ema_Ok; [done|lia|].
  unfold len in *. rewrite length_macd_line_of by lia. lia.
Qed.

Lemma compute_macd_short (close : list F) :
  len close < 35 -> compute_macd close 12 26 9 = Ok (Macd.mk [] [] []).
Proof.
  intros Hlen. unfold compute_macd.
  by destruct (Z.ltb_spec (len close) (26 + 9)) as [_|?]; [|lia].
Qed.

End MacdLoops.

Section ExactMacd.
Context (rt : Q -> Q).
Local Open Scope Q_scope.
Local Abbreviation E := (exact_float rt).
#[local] Hint Extern 0 (PyFloat Q) => exact (exact_float rt) : typeclass_instances.

#[local] Instance odd_den4_proper : Proper (Qeq ==> iff) odd_den4.
Proof.
  intros x y Hxy. unfold odd_den4.
  split; intros (a & d & Hd & Ha); exists a, d; (split; [done|]).
  - by rewrite <-Hxy.
  - by rewrite Hxy.
Qed.

Lemma odd_inject_Z_nonzero (d : Z) : Z.odd d = true -> ~ inject_Z d == 0.
Proof.
  intros Hd Hz. change 0 with (inject_Z 0) in Hz.
  apply (proj1 (inject_Z_injective _ _)) in Hz.
  by subst d.
Qed.

Lemma on_grid4_odd_den4 (x : Q) : on_grid4 x -> odd_den4 x.
Proof.
  intros [k Hk]. exists k, 1%Z. split; [done|]. rewrite Hk. field.
Qed.

Lemma Qround_digits_4_grid (q : Q) : on_grid4 (Qround_digits 4 q).
Proof.
  exists (round_half_even (q * 10000)).
  rewrite Qround_digits_4. apply Qred_correct.
Qed.

Lemma odd_den4_zero : odd_den4 0.
Proof. exists 0%Z, 1%Z. split; [done|]. reflexivity. Qed.

Lemma odd_den4_plus (x y : Q) : odd_den4 x -> odd_den4 y -> odd_den4 (x + y).
Proof.
  intros (a & d & Hd & Ha) (b & e & He & Hb).
  exists (a * e + b * d)%Z, (d * e)%Z. split.
  - by rewrite Z.odd_mul, Hd, He.
  - rewrite inject_Z_plus, !inject_Z_mult, <-Ha, <-Hb. ring.
Qed.

(** Scaling by a fraction with an odd denominator. *)
Lemma odd_den4_scale (x : Q) (n m : Z) :
  Z.odd m = true -> odd_den4 x -> odd_den4 (x * inject_Z n / inject_Z m).
Proof.
  intros Hm (a & d & Hd & Ha).
  exists (a * n)%Z, (d * m)%Z. split.
  - by rewrite Z.odd_mul, Hd, Hm.
  - rewrite !inject_Z_mult, <-Ha. field. by apply odd_inject_Z_nonzero.
Qed.

Lemma odd_den4_foldl (a : Q) (xs : list Q) :
  odd_den4 a -> Forall odd_den4 xs -> odd_den4 (foldl (@fadd Q E) a xs).
Proof.
  intros Ha Hxs. revert a Ha. induction Hxs as [|x xs Hx _ IH]; intros a Ha; [done|].
  simpl. apply IH. rewrite Qred_correct. by apply odd_den4_plus.
Qed.

(** A value with an odd denominator is no tie. *)
Lemma odd_den4_no_tie (x : Q) (z : Z) :
  odd_den4 x -> ~ x * 10000 == inject_Z z + (1 # 2).
Proof.
  intros (a & d & Hd & Ha) Htie. rewrite Htie in Ha.
  assert (inject_Z ((2 * z + 1) * d) == inject_Z (2 * a)) as Heq.
  { rewrite !inject_Z_mult, inject_Z_plus, inject_Z_mult, <-Ha.
    change (inject_Z 2) with 2. change (inject_Z 1) with 1. ring. }
  apply (proj1 (inject_Z_injective _ _)) in Heq.
  apply Z.odd_spec in Hd as [k ->]. lia.
Qed.

(** The integer strictly nearer than one half is the rounded value. *)
Lemma round_half_even_unique (q : Q) (z : Z) :
  inject_Z z - (1 # 2) < q -> q < inject_Z z + (1 # 2) ->
  round_half_even q = z.
Proof.
  intros Hlo Hhi. destruct (round_half_even_near q) as [Hn1 Hn2].
  assert (inject_Z (round_half_even q) < inject_Z z + 1) as H1 by lra.
  assert (inject_Z z < inject_Z (round_half_even q) + 1) as H2 by lra.
  change 1 with (inject_Z 1) in H1, H2.
  rewrite <-inject_Z_plus, <-Zlt_Qlt in H1, H2. lia.
Qed.

(** Rounding commutes with subtraction from a whole number, away from ties. *)
Lemma round_half_even_shift (m : Z) (t : Q) :
  (forall z, ~ t == inject_Z z + (1 # 2)) ->
  round_half_even (inject_Z m - t) = (m - round_half_even t)%Z.
Proof.
  intros Hno. destruct (round_half_even_near t) as [Hn1 Hn2].
  pose proof (Hno (round_half_even t)) as Hup.
  pose proof (Hno (round_half_even t - 1)%Z) as Hdown.
  unfold Z.sub in Hdown. rewrite inject_Z_plus in Hdown.
  change (inject_Z (- (1))) with (- (1)) in Hdown.
  apply round_half_even_unique.
  - unfold Z.sub. rewrite inject_Z_plus, inject_Z_opp.
    destruct (Qlt_le_dec t (inject_Z (round_half_even t) + (1 # 2))) as [?|Hge]; [lra|].
    exfalso. apply Hup. lra.
  - unfold Z.sub. rewrite inject_Z_plus, inject_Z_opp.
    destruct (Qlt_le_dec (inject_Z (round_half_even t) - (1 # 2)) t) as [?|Hle]; [lra|].
    exfalso. apply Hdown. lra.
Qed.

Lemma macd_line_on_grid (close : list Q) :
  Forall on_grid4 (macd_line_of (H := E) close).
Proof.
  apply Forall_lookup. intros i v Hv. unfold macd_line_of in Hv.
  apply lookup_zip_with_Some in Hv as (f & s & -> & _ & _).
  apply Qround_digits_4_grid.
Qed.

(** The signal line: a mean of nine grid values, then steps with the
    constants 1/5 and 4/5; its denominators stay odd. *)
Lemma signal_line_odd_den (close : list Q) :
  Forall odd_den4 (signal_line_of (H := E) close).
Proof.
  pose proof (macd_line_on_grid close) as Hgrid.
  assert (Forall odd_den4 (macd_line_of (H := E) close)) as Hml.
  { eapply Forall_impl; [exact Hgrid|]. apply on_grid4_odd_den4. }
  unfold signal_line_of, ema_series.
  set (ml := macd_line_of close) in *.
  assert (odd_den4 (@fquot Q E (pysum (take (Z.to_nat 9) ml)) (of_Z 9))) as Hseed.
  { simpl. rewrite Qred_correct.
    assert (forall x, x / inject_Z 9 == x * inject_Z 1 / inject_Z 9) as ->.
    { intros x. change (inject_Z 9) with 9. change (inject_Z 1) with 1. field. }
    apply odd_den4_scale; [done|].
    apply odd_den4_foldl; [apply odd_den4_zero|by apply Forall_take]. }
  constructor; [done|].
  apply ema_loop_Forall; [done|].
  intros p e Hp He.
  assert (odd_den4 p) as Hp'.
  { apply (proj1 (Forall_forall _ _) Hml). by eapply subseteq_drop. }
  simpl. rewrite !Qred_correct.
  assert (p * (inject_Z 2 / inject_Z (9 + 1))
          + e * (inject_Z 1 - inject_Z 2 / inject_Z (9 + 1))
          == p * inject_Z 1 / inject_Z 5 + e * inject_Z 4 / inject_Z 5) as ->.
  { change (inject_Z (9 + 1)) with 10. change (inject_Z 2) with 2.
    change (inject_Z 1) with 1. change (inject_Z 4) with 4.
    change (inject_Z 5) with 5. field. }
  apply odd_den4_plus; by apply odd_den4_scale.
Qed.

(** Rounding a grid value leaves it as it is. *)
Lemma Qround_digits_4_on_grid (k : Z) (x : Q) :
  x == inject_Z k / 10000 -> Qround_digits 4 x == inject_Z k / 10000.
Proof.
  intros Hx. rewrite Qround_digits_4, Qred_correct.
  rewrite (round_half_even_comp (x * 10000) (inject_Z k)) by (rewrite Hx; field).
  by rewrite round_half_even_Z.
Qed.

(** The histogram value is the difference of the two rounded lines. *)
Lemma histogram_exact (ma sl : Q) :
  on_grid4 ma -> odd_den4 sl ->
  Qround_digits 4 (@fsub Q E ma sl)
  == Qround_digits 4 ma - Qround_digits 4 sl.
Proof.
  intros [k Hk] Hsl.
  rewrite (Qround_digits_4_on_grid k ma Hk).
  rewrite !Qround_digits_4, !Qred_correct. simpl.
  rewrite (round_half_even_comp (Qred (ma - sl) * 10000)
             (inject_Z k - sl * 10000))
    by (rewrite Qred_correct, Hk; field).
  rewrite round_half_even_shift by (intros z; by apply odd_den4_no_tie).
  unfold Z.sub. rewrite inject_Z_plus, inject_Z_opp. field.
Qed.

(** X19: in exact arithmetic only, [compute_macd] with its default periods
    returns for every close series three series of the
    same length whose values are whole numbers of ten-thousandths, and at
    every index the histogram equals macd minus signal: without rounding
    error the signal line never lies on a rounding tie.  In binary64 it
    can lie next to one, and the equality fails there. *)
Theorem macd_histogram_consistent (close : list Q) :
  exists r,
    compute_macd (H := E) close 12 26 9 = Ok r /\
    length (Macd.macd r) = length (Macd.signal r) /\
    length (Macd.signal r) = length (Macd.histogram r) /\
    (forall v, v ∈ Macd.macd r ++ Macd.signal r ++ Macd.histogram r ->
       on_grid4 v) /\
    forall i m s h,
      Macd.macd r !! i = Some m -> Macd.signal r !! i = Some s ->
      Macd.histogram r !! i = Some h ->
      Qabs (h - (m - s)) < 1 # 1000000.
Proof.
  destruct (Z.lt_ge_cases (len close) 35) as [Hshort|Hlong].
  { exists (Macd.mk [] [] []). split; [by apply compute_macd_short|].
    simpl. repeat split; try done.
    intros v Hv. by apply elem_of_nil in Hv. }
  eexists. split; [by apply compute_macd_default|].
  cbn [Macd.macd Macd.signal Macd.histogram].
  set (ml := macd_line_of close). set (sl := signal_line_of close).
  assert (length (drop 8 ml) = length sl) as Hlen.
  { unfold sl, signal_line_of. fold ml.
    rewrite length_drop, length_ema_series. unfold ml.
    rewrite length_macd_line_of by (unfold len in Hlong; lia).
    change (Z.to_nat 9) with 9%nat. unfold len in Hlong. lia. }
  split; [by rewrite !length_fmap|].
  split; [rewrite length_fmap, length_zip_with; lia|].
  split.
  - intros v Hv. rewrite !elem_of_app in Hv.
    destruct Hv as [Hv|[Hv|Hv]].
    + apply list_elem_of_fmap in Hv as (x & -> & _). apply Qround_digits_4_grid.
    + apply list_elem_of_fmap in Hv as (x & -> & _). apply Qround_digits_4_grid.
    + apply list_elem_of_lookup in Hv as [i Hi].
      apply lookup_zip_with_Some in Hi as (x & y & -> & _ & _).
      apply Qround_digits_4_grid.
  - intros i m s h Hm Hs Hh.
    rewrite list_lookup_fmap in Hm, Hs.
    destruct (drop 8 ml !! i) as [ma|] eqn:Hma; [|discriminate].
    destruct (sl !! i) as [sv|] eqn:Hsv; [|discriminate].
    injection Hm as <-. injection Hs as <-.
    apply lookup_zip_with_Some in Hh as (x & y & -> & Hx & Hy).
    rewrite Hma in Hx. rewrite Hsv in Hy. injection Hx as <-. injection Hy as <-.
    assert (on_grid4 ma) as Hgrid.
    { apply (proj1 (Forall_forall _ _) (macd_line_on_grid close)).
      eapply (subseteq_drop 8). by eapply list_elem_of_lookup_2. }
    assert (odd_den4 sv) as Hodd.
    { apply (proj1 (Forall_forall _ _) (signal_line_odd_den close)).
      by eapply list_elem_of_lookup_2. }
    change (@fround Q E 4) with (Qround_digits 4).
    rewrite (histogram_exact ma sv Hgrid Hodd).
    assert (Qround_digits 4 ma - Qround_digits 4 sv
            - (Qround_digits 4 ma - Qround_digits 4 sv) == 0) as -> by ring.
    reflexivity.
Qed.

End ExactMacd.

(** ** The offline unit tests of the repository, run on the model *)

Example test_basic_ema :
  _ema (H := exact_float sqrt6) [10; 11; 12; 13; 14]%Q 3 = Ok [11; 12; 13]%Q.
Proof. vm_compute. reflexivity. Qed.

Example test_insufficient_data_returns_empty :
  _ema (H := exact_float sqrt6) [1; 2]%Q 5 = Ok [].
Proof. vm_compute. reflexivity. Qed.

Example test_sma_period_larger_than_data :
  exists r, _sma (H := exact_float sqrt6) [1; 2; 3]%Q 10 = Ok r /\
            Forall (fun v => v = None) r.
Proof.
  eexists. split; [vm_compute; reflexivity|]. by repeat constructor.
Qed.

Example test_rsi_insufficient_data :
  compute_rsi (H := exact_float sqrt6) [1; 2; 3]%Q 14 = Ok [None; None; None].
Proof. vm_compute. reflexivity. Qed.

Example test_rsi_constant_prices_returns_neutral :
  compute_rsi (H := exact_float sqrt6) (replicate 20 100%Q) 14
  = Ok (replicate 14 None ++ replicate 6 (Some 50%Q)).
Proof. vm_compute. reflexivity. Qed.

Example test_rsi_only_gains_returns_100 :
  compute_rsi (H := exact_float sqrt6) (inject_Z <$> seqZ 1 21) 14
  = Ok (replicate 14 None ++ replicate 7 (Some 100%Q)).
Proof. vm_compute. reflexivity. Qed.

Example test_rsi_only_losses_returns_0 :
  compute_rsi (H := exact_float sqrt6) (inject_Z <$> reverse (seqZ 0 21)) 14
  = Ok (replicate 14 None ++ replicate 7 (Some 0%Q)).
Proof. vm_compute. reflexivity. Qed.

Example test_macd_empty_on_insufficient_data :
  compute_macd (H := exact_float sqrt6) (replicate 10 1%Q) 12 26 9
  = Ok (Macd.mk [] [] []).
Proof. vm_compute. reflexivity. Qed.

(** Forty closes 1, 2, ..., 40: both averages rise by one per step, so the
    MACD line is 7 throughout, and so is its signal line. *)
Example macd_of_a_linear_series :
  compute_macd (H := exact_float sqrt6) (inject_Z <$> seqZ 1 40) 12 26 9
  = Ok (Macd.mk (replicate 7 7%Q) (replicate 7 7%Q) (replicate 7 0%Q)).
Proof. vm_compute. reflexivity. Qed.

(** ** Moving averages: shape and bounds *)

Section EmaShape.
Context {F : Type} `{PyFloat F}.

Lemma ema_loop_lookup (k prev : F) (ps : list F) (j : nat) (p : F) :
  ps !! j = Some p ->
  exists e,
    (prev :: ema_loop k prev ps) !! j = Some e /\
    ema_loop k prev ps !! j
    = Some (fadd (fmul p k) (fmul e (fsub (of_Z 1) k))).
Proof.
  revert prev j. induction ps as [|q ps IH]; intros prev j Hp; [done|].
  destruct j as [|j]; simpl in Hp.
  - injection Hp as ->. by exists prev.
  - destruct (IH (fadd (fmul q k) (fmul prev (fsub (of_Z 1) k))) j Hp)
      as (e & He & Hstep).
    exists e. by split.
Qed.

(** X1: for a period of at least one, [_ema] returns the empty series for
    fewer than [period] prices; otherwise it returns [len - period + 1]
    values, the first the mean of the first [period] prices and each later
    one [price * k + previous * (1 - k)] with [k = 2 / (period + 1)]. *)
Theorem ema_shape (prices : list F) (period : Z) :
  1 <= period ->
  (len prices < period -> _ema prices period = Ok []) /\
  (period <= len prices ->
   exists r,
     _ema prices period = Ok r /\
     len r = len prices - period + 1 /\
     r !! 0%nat = Some (mean (take (Z.to_nat period) prices)) /\
     forall j p e,
       prices !! (Z.to_nat period + j)%nat = Some p -> r !! j = Some e ->
       r !! S j
       = Some (fadd (fmul p (fquot (of_Z 2) (of_Z (period + 1))))
                    (fmul e (fsub (of_Z 1) (fquot (of_Z 2) (of_Z (period + 1))))))).
Proof.
  intros Hp. split.
  - intros Hshort. unfold _ema.
    by destruct (Z.ltb_spec (len prices) period) as [_|?]; [|lia].
  - intros Hlen. exists (ema_series prices period).
    split; [by apply _ema_Ok|]. unfold len in *.
    split; [rewrite length_ema_series; lia|].
    split.
    + unfold ema_series, mean, len. simpl.
      rewrite length_take, Nat.min_l by lia. by rewrite Z2Nat.id by lia.
    + intros j p e Hprice He. unfold ema_series in *.
      rewrite <-lookup_drop in Hprice.
      destruct (ema_loop_lookup (fquot (of_Z 2) (of_Z (period + 1)))
                  (fquot (pysum (take (Z.to_nat period) prices)) (of_Z period))
                  _ j p Hprice) as (e' & He' & Hstep).
      cbv zeta in He. rewrite He in He'. injection He' as <-. exact Hstep.
Qed.

End EmaShape.

(** X1 at five prices and a period of three. *)
Lemma ema_shape_witness :
  1 <= 3 /\
  exists r,
    _ema (H := exact_float sqrt6) [10; 11; 12; 13; 14]%Q 3 = Ok r /\
    len r = 3 /\ r !! 0%nat = Some 11%Q.
Proof.
  split; [lia|].
  destruct (ema_shape (H := exact_float sqrt6) [10; 11; 12; 13; 14]%Q 3)
    as [_ Hlong]; [lia|].
  destruct Hlong as (r & Hr & Hlen & Hseed & _); [vm_compute; congruence|].
  exists r. split; [exact Hr|]. split; [exact Hlen|].
  rewrite Hseed. vm_compute. reflexivity.
Defined.

Section ExactAverages.
Context (rt : Q -> Q).
Local Open Scope Q_scope.
Local Abbreviation E := (exact_float rt).
#[local] Hint Extern 0 (PyFloat Q) => exact (exact_float rt) : typeclass_instances.

Lemma foldl_fadd_bounds (lo hi a : Q) (xs : list Q) :
  Forall (fun x => lo <= x <= hi) xs ->
  a + inject_Z (len xs) * lo <= foldl (@fadd Q E) a xs /\
  foldl (@fadd Q E) a xs <= a + inject_Z (len xs) * hi.
Proof.
  intros Hxs. revert a. induction Hxs as [|x xs [Hx1 Hx2] _ IH]; intros a.
  - unfold len. simpl. change (inject_Z (Z.of_nat 0)) with 0. split; lra.
  - change (foldl (@fadd Q E) a (x :: xs))
      with (foldl (@fadd Q E) (@fadd Q E a x) xs).
    destruct (IH (@fadd Q E a x)) as [IH1 IH2].
    assert (@fadd Q E a x == a + x) as Hacc by apply Qred_correct.
    assert (inject_Z (len (x :: xs)) == inject_Z (len xs) + 1) as Hn.
    { unfold len. rewrite length_cons, Nat2Z.inj_succ. unfold Z.succ.
      by rewrite inject_Z_plus. }
    rewrite Hn. split; lra.
Qed.

(** The mean of values between [lo] and [hi] lies between [lo] and [hi]. *)
Lemma mean_bounds (lo hi : Q) (xs : list Q) (n : Z) :
  (1 <= n)%Z -> len xs = n ->
  Forall (fun x => lo <= x <= hi) xs ->
  lo <= @fquot Q E (pysum xs) (of_Z n) <= hi.
Proof.
  intros Hn Hlen Hxs.
  destruct (foldl_fadd_bounds lo hi 0 xs Hxs) as [H1 H2].
  rewrite Hlen in H1, H2.
  assert (0 < inject_Z n) as Hpos by (apply inject_Z_pos; lia).
  simpl. rewrite Qred_correct. unfold pysum. change (@zero Q E) with 0.
  split.
  - apply Qle_shift_div_l; [done|]. lra.
  - apply Qle_shift_div_r; [done|]. lra.
Qed.

(** The smoothing constant of a period of at least one lies in (0, 1]. *)
Lemma smoothing_constant (period : Z) :
  (1 <= period)%Z ->
  0 <= @fquot Q E (of_Z 2) (of_Z (period + 1)) <= 1.
Proof.
  intros Hp. simpl. rewrite Qred_correct.
  assert (0 < inject_Z (period + 1)) as Hpos by (apply inject_Z_pos; lia).
  assert (inject_Z 2 <= inject_Z (period + 1)) as Hle
    by (rewrite <-Zle_Qle; lia).
  change (inject_Z 2) with 2 in *.
  split.
  - apply Qle_shift_div_l; [done|]. lra.
  - apply Qle_shift_div_r; [done|]. lra.
Qed.

(** One smoothing step is a weighted mean of the price and the previous
    value. *)
Lemma ema_step_bounds (lo hi k p e : Q) :
  0 <= k <= 1 -> lo <= p <= hi -> lo <= e <= hi ->
  lo <= @fadd Q E (fmul p k) (fmul e (fsub (of_Z 1) k)) <= hi.
Proof.
  intros [Hk1 Hk2] [Hp1 Hp2] [He1 He2]. simpl. rewrite !Qred_correct.
  change (inject_Z 1) with 1.
  assert (0 <= (p - lo) * k) by (apply Qmult_le_0_compat; lra).
  assert (0 <= (e - lo) * (1 - k)) by (apply Qmult_le_0_compat; lra).
  assert (0 <= (hi - p) * k) by (apply Qmult_le_0_compat; lra).
  assert (0 <= (hi - e) * (1 - k)) by (apply Qmult_le_0_compat; lra).
  split; lra.
Qed.

Lemma ema_series_bounds (lo hi : Q) (prices : list Q) (period : Z) :
  (1 <= period)%Z -> (period <= len prices)%Z ->
  Forall (fun x => lo <= x <= hi) prices ->
  Forall (fun x => lo <= x <= hi) (ema_series (H := E) prices period).
Proof.
  intros Hp Hlen Hprices. unfold ema_series.
  assert (lo <= @fquot Q E (pysum (take (Z.to_nat period) prices)) (of_Z period)
          <= hi) as Hseed.
  { apply mean_bounds; [done| |by apply Forall_take].
    unfold len in *. rewrite length_take. lia. }
  constructor; [done|].
  apply ema_loop_Forall; [done|].
  intros p e Hin He. apply ema_step_bounds; [by apply smoothing_constant| |done].
  apply (proj1 (Forall_forall _ _) Hprices). by eapply subseteq_drop.
Qed.

(** X2: in exact arithmetic, for a period of at least one, every value of the
    series that [_ema] returns lies between the least and the greatest
    price: smoothing never leaves the range of its input. *)
Theorem ema_bounded (lo hi : Q) (prices : list Q) (period : Z) :
  (1 <= period)%Z ->
  (forall p, p ∈ prices -> lo <= p <= hi) ->
  exists r,
    _ema (H := E) prices period = Ok r /\
    forall e, e ∈ r -> lo <= e <= hi.
Proof.
  intros Hp Hprices.
  destruct (Z.lt_ge_cases (len prices) period) as [Hshort|Hlong].
  - exists []. split.
    + unfold _ema. by destruct (Z.ltb_spec (len prices) period) as [_|?]; [|lia].
    + intros e He. by apply elem_of_nil in He.
  - exists (ema_series prices period). split; [by apply _ema_Ok|].
    apply Forall_forall, ema_series_bounds; [done..|].
    by apply Forall_forall.
Qed.

(** X3: in exact arithmetic, for a window of at least one, every value (not
    the marker) of the series that [_sma] returns lies between the least and
    the greatest input value. *)
Theorem sma_bounded (lo hi : Q) (values : list Q) (period : Z) :
  (1 <= period)%Z ->
  (forall p, p ∈ values -> lo <= p <= hi) ->
  exists r,
    _sma (H := E) values period = Ok r /\
    forall v, Some v ∈ r -> lo <= v <= hi.
Proof.
  intros Hp Hvalues.
  destruct (sma_tail (H := E) values period Hp) as (tail & Htail & Hlt & Hpos).
  exists (pyrepeat None (period - 1) ++ tail). split.
  { unfold _sma. by rewrite Htail. }
  intros v Hv. apply elem_of_app in Hv as [Hv|Hv].
  { by apply elem_of_replicate in Hv as [[=] _]. }
  apply list_elem_of_lookup in Hv as [j Hj].
  pose proof (lookup_lt_Some _ _ _ Hj) as Hjlt.
  rewrite Hpos in Hj by done. injection Hj as <-.
  assert (len (window values period (period - 1 + Z.of_nat j)) = period)
    as Hw by (apply length_window; lia).
  unfold mean. rewrite Hw. apply mean_bounds; [done|done|].
  apply Forall_forall. intros p Hin. apply Hvalues.
  unfold window in Hin. eapply subseteq_drop, subseteq_take, Hin.
Qed.

End ExactAverages.

(** X2 at five prices between 10 and 14 and a period of three. *)
Lemma ema_bounded_witness :
  1 <= 3 /\
  exists r,
    _ema (H := exact_float sqrt6) [10; 14; 12; 11; 13]%Q 3 = Ok r /\
    forall e, e ∈ r -> (10 <= e <= 14)%Q.
Proof.
  split; [lia|].
  apply (ema_bounded sqrt6 10%Q 14%Q [10; 14; 12; 11; 13]%Q 3); [lia|].
  intros p Hp.
  repeat (apply elem_of_cons in Hp as [->|Hp]; [vm_compute; split; congruence|]).
  by apply elem_of_nil in Hp.
Defined.

(** X3 at the same values and a window of two. *)
Lemma sma_bounded_witness :
  1 <= 2 /\
  exists r,
    _sma (H := exact_float sqrt6) [10; 14; 12; 11; 13]%Q 2 = Ok r /\
    forall v, Some v ∈ r -> (10 <= v <= 14)%Q.
Proof.
  split; [lia|].
  apply (sma_bounded sqrt6 10%Q 14%Q [10; 14; 12; 11; 13]%Q 2); [lia|].
  intros p Hp.
  repeat (apply elem_of_cons in Hp as [->|Hp]; [vm_compute; split; congruence|]).
  by apply elem_of_nil in Hp.
Defined.

(** ** Shapes of the oscillator series *)

Section ExactShapes.
Context (rt : Q -> Q).
Local Open Scope Q_scope.
Local Abbreviation E := (exact_float rt).
#[local] Hint Extern 0 (PyFloat Q) => exact (exact_float rt) : typeclass_instances.

(** [compute_rsi] for a period of at least one: it returns a series as long
    as the closes. *)
Lemma compute_rsi_total (close : list Q) (period : Z) :
  (1 <= period)%Z ->
  exists vs,
    compute_rsi (H := E) close period = Ok vs /\ length vs = length close.
Proof.
  intros Hp.
  destruct (Z.lt_ge_cases (len close) (period + 1)) as [Hshort|Hlong].
  - exists (pyrepeat None (len close)). split.
    + unfold compute_rsi.
      by destruct (Z.ltb_spec (len close) (period + 1)) as [_|?]; [|lia].
    + unfold pyrepeat, len. rewrite Nat2Z.id. apply length_replicate.
  - destruct (compute_rsi_spec rt close period Hp Hlong) as (vs & Hvs & Hlen & _).
    by exists vs.
Qed.

(** X4: in exact arithmetic, for a look-back period of at least one,
    [compute_rsi] returns for every series, also a short or an empty one; the
    result is as long as the closes, holds the marker at the indices below
    [period] and a value at every later index. *)
Theorem rsi_shape (close : list Q) (period : Z) :
  (1 <= period)%Z ->
  exists vs,
    compute_rsi (H := E) close period = Ok vs /\
    length vs = length close /\
    forall i, (i < length close)%nat ->
      ((i < Z.to_nat period)%nat -> vs !! i = Some None) /\
      ((Z.to_nat period <= i)%nat -> exists v, vs !! i = Some (Some v)).
Proof.
  intros Hp.
  destruct (Z.lt_ge_cases (len close) (period + 1)) as [Hshort|Hlong].
  - exists (pyrepeat None (len close)). split.
    { unfold compute_rsi.
      by destruct (Z.ltb_spec (len close) (period + 1)) as [_|?]; [|lia]. }
    unfold pyrepeat, len in *. rewrite Nat2Z.id.
    split; [apply length_replicate|].
    intros i Hi. split; [intros _; by apply lookup_replicate_2|lia].
  - destruct (compute_rsi_spec rt close period Hp) as (vs & Hvs & Hlen & Hnone & Hdef);
      [lia|].
    exists vs. split; [done|]. split; [done|].
    intros i Hi. split; [apply Hnone|].
    intros Hge. destruct (Hdef (i - Z.to_nat period)%nat) as (r & Hr & _); [lia|].
    exists r. by replace i with (Z.to_nat period + (i - Z.to_nat period))%nat at 1 by lia.
Qed.

End ExactShapes.

(** X4 at three closes and the default period: markers only. *)
Lemma rsi_shape_witness :
  1 <= 14 /\
  exists vs,
    compute_rsi (H := exact_float sqrt6) [1; 2; 3]%Q 14 = Ok vs /\
    length vs = 3%nat /\ vs !! 2%nat = Some None.
Proof.
  split; [lia|].
  destruct (rsi_shape sqrt6 [1; 2; 3]%Q 14) as (vs & Hvs & Hlen & Hpos); [lia|].
  exists vs. split; [exact Hvs|]. split; [exact Hlen|].
  destruct (Hpos 2%nat) as [Hnone _]; [simpl; lia|].
  apply Hnone. vm_compute. lia.
Defined.

Section MacdShape.
Context {F : Type} `{PyFloat F}.

(** X5: for every float carrier, [compute_macd] with the default periods
    returns for every series: three empty series for fewer than 35 closes,
    and three series of [n - 33] values each for [n >= 35] closes. *)
Theorem macd_lengths (close : list F) :
  exists r,
    compute_macd close 12 26 9 = Ok r /\
    (len close < 35 -> r = Macd.mk [] [] []) /\
    (35 <= len close ->
     len (Macd.macd r) = len close - 33 /\
     len (Macd.signal r) = len close - 33 /\
     len (Macd.histogram r) = len close - 33).
Proof.
  destruct (Z.lt_ge_cases (len close) 35) as [Hshort|Hlong].
  { exists (Macd.mk [] [] []). split; [by apply compute_macd_short|].
    split; [done|lia]. }
  eexists. split; [by apply compute_macd_default|]. split; [lia|]. intros _.
  cbn [Macd.macd Macd.signal Macd.histogram]. unfold len in *.
  rewrite !length_fmap, length_zip_with, length_drop.
  unfold signal_line_of. rewrite length_ema_series.
  rewrite length_macd_line_of by lia.
  change (Z.to_nat 9) with 9%nat. lia.
Qed.

End MacdShape.

(** ** A flat series *)

Section ExactFlat.
Context (rt : Q -> Q).
Local Open Scope Q_scope.
Local Abbreviation E := (exact_float rt).
#[local] Hint Extern 0 (PyFloat Q) => exact (exact_float rt) : typeclass_instances.

Lemma Qround_digits_4_zero (x : Q) : x == 0 -> Qround_digits 4 x = 0.
Proof.
  intros Hx. rewrite Qround_digits_4.
  transitivity (Qred 0); [|reflexivity]. apply Qred_complete.
  rewrite (round_half_even_comp (x * 10000) (inject_Z 0))
    by (rewrite Hx; reflexivity).
  rewrite round_half_even_Z. reflexivity.
Qed.

(** An average of equal prices is that price. *)
Lemma ema_series_flat (c : Q) (prices : list Q) (period : Z) :
  (1 <= period)%Z -> (period <= len prices)%Z ->
  Forall (fun x => x == c) prices ->
  Forall (fun x => x == c) (ema_series (H := E) prices period).
Proof.
  intros Hp Hlen Hc.
  eapply Forall_impl;
    [apply (ema_series_bounds rt c c prices period Hp Hlen)|].
  - eapply Forall_impl; [exact Hc|]. intros x Hx. simpl in Hx. rewrite Hx. lra.
  - intros x Hx. simpl in Hx. lra.
Qed.

Lemma macd_line_flat (c : Q) (close : list Q) :
  (26 <= len close)%Z ->
  Forall (fun x => x == c) close ->
  Forall (fun x => x = 0) (macd_line_of (H := E) close).
Proof.
  intros Hlen Hc. apply Forall_forall. intros v Hv.
  unfold macd_line_of in Hv.
  apply elem_of_zip_with in Hv as (f & s & -> & Hf & Hs).
  apply (subseteq_drop 14) in Hf.
  pose proof (ema_series_flat c close 12 ltac:(lia) ltac:(lia) Hc) as H12.
  pose proof (ema_series_flat c close 26 ltac:(lia) ltac:(lia) Hc) as H26.
  rewrite Forall_forall in H12, H26.
  apply Qround_digits_4_zero. simpl. rewrite Qred_correct.
  rewrite (H12 f Hf), (H26 s Hs). ring.
Qed.

(** X6: in exact arithmetic, the MACD of at least 35 equal closes is flat:
    [compute_macd] with the default periods returns three series of
    [n - 33] zeros, whatever the price. *)
Theorem macd_flat (c : Q) (close : list Q) :
  (35 <= len close)%Z ->
  (forall x, x ∈ close -> x == c) ->
  compute_macd (H := E) close 12 26 9
  = Ok (Macd.mk (replicate (Z.to_nat (len close - 33)) 0)
                (replicate (Z.to_nat (len close - 33)) 0)
                (replicate (Z.to_nat (len close - 33)) 0)).
Proof.
  intros Hlen Hc. rewrite compute_macd_default by done.
  assert (Forall (fun x => x == c) close) as Hall by by apply Forall_forall.
  pose proof (macd_line_flat c close ltac:(lia) Hall) as Hml.
  pose proof (length_macd_line_of (H := E) close) as Hlml.
  unfold len in *. specialize (Hlml ltac:(lia)).
  assert (Forall (fun x => x == 0) (signal_line_of (H := E) close)) as Hsl.
  { unfold signal_line_of. apply ema_series_flat; [lia|unfold len; lia|].
    eapply Forall_impl; [exact Hml|]. by intros x ->. }
  assert (length (signal_line_of (H := E) close)
          = Z.to_nat (Z.of_nat (length close) - 33)) as Hlsl.
  { unfold signal_line_of. rewrite length_ema_series, Hlml.
    change (Z.to_nat 9) with 9%nat. lia. }
  rewrite Forall_forall in Hml, Hsl.
  do 2 f_equal; symmetry; apply replicate_as_Forall.
  - split; [rewrite length_fmap, length_drop; lia|].
    apply Forall_forall. intros v Hv.
    apply list_elem_of_fmap in Hv as (m & -> & Hm).
    apply (subseteq_drop 8) in Hm. symmetry. apply Qround_digits_4_zero.
    by rewrite (Hml m Hm).
  - split; [by rewrite length_fmap|].
    apply Forall_forall. intros v Hv.
    apply list_elem_of_fmap in Hv as (s & -> & Hs).
    symmetry. apply Qround_digits_4_zero. by apply Hsl.
  - split; [rewrite length_zip_with, length_drop; lia|].
    apply Forall_forall. intros v Hv.
    apply elem_of_zip_with in Hv as (m & s & -> & Hm & Hs).
    apply (subseteq_drop 8) in Hm. symmetry. apply Qround_digits_4_zero.
    simpl. rewrite Qred_correct, (Hml m Hm), (Hsl s Hs). ring.
Qed.

(** One row of the bands over a window of equal closes. *)
Lemma bollinger_at_flat (c : Q) (close : list Q) (period : Z) (std_dev : Q) (i : Z) :
  (1 <= period)%Z -> (period - 1 <= i < len close)%Z ->
  Forall (fun x => x == c) close -> rt 0 == 0 ->
  bollinger_at (H := E) close period std_dev i
  = Ok (Qround_digits 2 c, Qround_digits 2 c, Qround_digits 2 c).
Proof.
  intros Hp Hi Hc Hrt. unfold bollinger_at.
  rewrite pydiv_int_Ok by lia. rewrite res_bind_Ok; cbv beta.
  set (w := pyslice close _ _). set (sma := fquot (pysum w) (of_Z period)).
  assert (Forall (fun x => x == c) w) as Hw by by apply pyslice_Forall.
  assert (len w = period) as Hlw.
  { unfold w. rewrite pyslice_window by lia. unfold len in *.
    rewrite length_take, length_drop. lia. }
  assert (sma == c) as Hsma.
  { destruct (mean_bounds rt c c w period) as [Hlo Hhi]; [lia|done| |].
    - eapply Forall_impl; [exact Hw|]. intros x Hx. simpl in Hx. rewrite Hx. lra.
    - apply Qle_antisym; [exact Hhi|exact Hlo]. }
  change (fun p : Q => fsquare (fsub p sma))
    with (fun p : Q => Ok (Qred (Qred (p - sma) * Qred (p - sma)))).
  rewrite for_each_pure, res_bind_Ok; cbv beta.
  rewrite pydiv_int_Ok by lia. rewrite res_bind_Ok; cbv beta.
  set (var := fquot _ (of_Z period)).
  assert (var = 0) as ->.
  { unfold var. transitivity (Qred 0); [|reflexivity].
    apply Qred_complete.
    assert (pysum ((fun p => Qred (Qred (p - sma) * Qred (p - sma))) <$> w) == 0)
      as Hsum.
    { apply foldl_fadd_zero; [done|].
      apply Forall_fmap. eapply Forall_impl; [exact Hw|].
      intros p Hpc. simpl in *. rewrite !Qred_correct, Hpc, Hsma. ring. }
    rewrite Hsum. unfold Qdiv. ring. }
  unfold msqrt at 1. simpl.
  do 2 f_equal; [f_equal|]; apply Qround_digits_2_comp;
    rewrite ?Qred_correct, ?Hrt, ?Hsma; ring.
Qed.

(** X7: in exact arithmetic with a square root that maps zero to zero, the
    bands of a flat series collapse: for a window of at least one and at
    least [period] equal closes, all three bands hold the price, rounded to
    two decimals, at each of their [n - period + 1] positions, whatever the
    multiplier. *)
Theorem bollinger_flat (c : Q) (close : list Q) (period : Z) (std_dev : Q) :
  (1 <= period)%Z -> (period <= len close)%Z ->
  (forall x, x ∈ close -> x == c) -> rt 0 == 0 ->
  compute_bollinger_bands (H := E) close period std_dev
  = Ok (Bands.mk
          (replicate (Z.to_nat (len close - period + 1)) (Qround_digits 2 c))
          (replicate (Z.to_nat (len close - period + 1)) (Qround_digits 2 c))
          (replicate (Z.to_nat (len close - period + 1)) (Qround_digits 2 c))).
Proof.
  intros Hp Hlen Hc Hrt. unfold compute_bollinger_bands.
  destruct (Z.ltb_spec (len close) period) as [?|_]; [lia|].
  assert (Forall (fun x => x == c) close) as Hall by by apply Forall_forall.
  set (r := Qround_digits 2 c). set (n := Z.to_nat (len close - period + 1)).
  assert (for_each (bollinger_at (H := E) close period std_dev)
            (range (period - 1) (len close)) = Ok (replicate n (r, r, r))) as ->.
  { apply for_each_Ok. apply Forall2_same_length_lookup_2.
    - rewrite length_range, length_replicate. unfold n. f_equal. lia.
    - intros j i row Hi Hrow. apply lookup_replicate in Hrow as [-> _].
      apply list_elem_of_lookup_2, elem_of_range in Hi.
      apply bollinger_at_flat; [done|lia|done|done]. }
  rewrite res_bind_Ok. by rewrite !fmap_replicate.
Qed.

End ExactFlat.

(** X6 at forty closes of 250. *)
Lemma macd_flat_witness :
  35 <= len (replicate 40 (250 # 1)%Q) /\
  Macd.histogram <$> compute_macd (H := exact_float sqrt6)
                       (replicate 40 (250 # 1)%Q) 12 26 9
  = Ok (replicate 7 0%Q).
Proof.
  split; [vm_compute; discriminate|].
  rewrite (macd_flat sqrt6 (250 # 1)%Q (replicate 40 (250 # 1)%Q)).
  - reflexivity.
  - vm_compute. discriminate.
  - intros x Hx. apply elem_of_replicate in Hx as [-> _]. reflexivity.
Defined.

(** X7 at five closes of 12.5 and a window of three. *)
Lemma bollinger_flat_witness :
  1 <= 3 /\
  compute_bollinger_bands (H := exact_float sqrt6)
    (replicate 5 (25 # 2)%Q) 3 (2 # 1)%Q
  = Ok (Bands.mk (replicate 3 (25 # 2)%Q) (replicate 3 (25 # 2)%Q)
                 (replicate 3 (25 # 2)%Q)).
Proof.
  split; [lia|].
  rewrite (bollinger_flat sqrt6 (25 # 2)%Q (replicate 5 (25 # 2)%Q) 3 (2 # 1)%Q).
  - reflexivity.
  - lia.
  - vm_compute. discriminate.
  - intros x Hx. apply elem_of_replicate in Hx as [-> _]. reflexivity.
  - reflexivity.
Defined.

(** ** The summary *)

Section SummaryLoops.
Context {F : Type} `{PyFloat F}.

(** [l[i]] for a negative index within range. *)
Lemma py_getitem_negative {A} (l : list A) i x :
  i < 0 -> 0 <= i + len l -> l !! Z.to_nat (i + len l) = Some x ->
  py_getitem l i = Ok x.
Proof.
  intros Hi Hn Hx. unfold py_getitem.
  assert ((i <? 0) = true) as -> by lia. cbv zeta.
  assert ((i + len l <? 0) = false) as -> by lia. by rewrite Hx.
Qed.

(** [_sma] of a series shorter than the window: markers only. *)
Lemma sma_short (values : list F) period :
  len values < period -> _sma values period = Ok (pyrepeat None (period - 1)).
Proof.
  intros Hlen. unfold _sma, range.
  replace (seqZ (period - 1) (len values - (period - 1))) with (@nil Z).
  - simpl. by rewrite app_nil_r.
  - unfold seqZ. by replace (Z.to_nat (len values - (period - 1))) with 0%nat by lia.
Qed.

Lemma last_valid_pyrepeat k : last_valid (pyrepeat (@None F) k) = None.
Proof.
  apply last_valid_None. intros v Hv.
  unfold pyrepeat in Hv. by apply elem_of_replicate in Hv as [? _].
Qed.

(** The summary of a series that is not empty, once the oscillator and the
    bands have returned: the moving averages and the MACD return for every
    series, the reference price of the trend exists, and the division of the
    trend is guarded by the truth value of its divisor. *)
Lemma compute_indicators_Ok (dates : list string) (close high low : list F)
    (volume : list Z) (r : list (option F)) (b : Bands.t F) :
  close <> [] ->
  compute_rsi close 14 = Ok r ->
  compute_bollinger_bands close 20 (of_Z 2) = Ok b ->
  exists s20 s50 s200 m p,
    _sma close 20 = Ok s20 /\ _sma close 50 = Ok s50 /\
    _sma close 200 = Ok s200 /\ compute_macd close 12 26 9 = Ok m /\
    (if 30 <=? len close then close !! (length close - 30)%nat
     else close !! 0%nat) = Some p /\
    let l := default zero (last close) in
    let pct :=
      if truthy p then fmul (fquot (fsub l p) p) (of_Z 100) else zero in
    compute_indicators dates close high low volume
    = Ok {| Summary.rsi := r;
            Summary.macd := m;
            Summary.bollinger_bands := b;
            Summary.sma_20 := s20;
            Summary.sma_50 := s50;
            Summary.sma_200 := s200;
            Summary.latest :=
              {| Latest.close := l;
                 Latest.rsi := round_if (last_valid r);
                 Latest.macd := last (Macd.macd m);
                 Latest.macd_signal := last (Macd.signal m);
                 Latest.macd_histogram := last (Macd.histogram m);
                 Latest.sma_20 := round_if (last_valid s20);
                 Latest.sma_50 := round_if (last_valid s50);
                 Latest.sma_200 := round_if (last_valid s200);
                 Latest.bb_upper := last (Bands.upper b);
                 Latest.bb_lower := last (Bands.lower b);
                 Latest.trend :=
                   if fltb (of_Z 2) pct then "Uptrend"%string
                   else if fltb pct (of_Z (-2)) then "Downtrend"%string
                   else "Sideways"%string;
                 Latest.trend_30d_pct := fround 2 pct |};
            Summary.signals :=
              rsi_signal (last_valid r)
              ++ macd_signal (last (Macd.macd m)) (last (Macd.signal m))
              ++ cross_signal (last_valid s50) (last_valid s200)
              ++ band_signal l (last (Bands.upper b)) (last (Bands.lower b));
            Summary.data_points := len close |}.
Proof.
  intros Hne Hr Hb.
  destruct (sma_defined close 20 ltac:(lia)) as (s20 & Hs20 & _).
  destruct (sma_defined close 50 ltac:(lia)) as (s50 & Hs50 & _).
  destruct (sma_defined close 200 ltac:(lia)) as (s200 & Hs200 & _).
  assert (exists m, compute_macd close 12 26 9 = Ok m) as [m Hm].
  { destruct (Z.lt_ge_cases (len close) 35).
    - eexists. by apply compute_macd_short.
    - eexists. by apply compute_macd_default. }
  assert (0 < length close)%nat as Hlen.
  { destruct close; [done|simpl; lia]. }
  assert (exists p,
    (if 30 <=? len close then close !! (length close - 30)%nat
     else close !! 0%nat) = Some p /\
    (if 30 <=? len close then py_getitem close (-30) else py_getitem close 0)
    = Ok p) as (p & Hp & Hget).
  { unfold len. destruct (Z.leb_spec 30 (Z.of_nat (length close))) as [Hge|Hlt].
    - destruct (lookup_lt_is_Some_2 close (length close - 30)) as [p Hp]; [lia|].
      exists p. split; [done|]. apply py_getitem_negative; [lia|unfold len; lia|].
      unfold len. by replace (Z.to_nat (-30 + Z.of_nat (length close)))
        with (length close - 30)%nat by lia.
    - destruct (lookup_lt_is_Some_2 close 0) as [p Hp]; [lia|].
      exists p. split; [done|]. by apply py_getitem_lookup. }
  exists s20, s50, s200, m, p. do 5 (split; [done|]). cbv zeta.
  unfold compute_indicators.
  rewrite Hs20, res_bind_Ok; cbv beta. rewrite Hs50, res_bind_Ok; cbv beta.
  rewrite Hs200, res_bind_Ok; cbv beta. rewrite Hr, res_bind_Ok; cbv beta.
  rewrite Hm, res_bind_Ok; cbv beta. rewrite Hb, res_bind_Ok; cbv beta zeta.
  rewrite Hget, res_bind_Ok; cbv beta.
  destruct (truthy p) eqn:Htruthy; [|by rewrite res_bind_Ok].
  unfold pydiv. unfold truthy in Htruthy.
  apply negb_true_iff in Htruthy. rewrite Htruthy.
  by rewrite !res_bind_Ok.
Qed.

(** X8: for every float carrier, a history of one to fourteen closes gives a
    summary with the close and the trend only: [compute_indicators] returns,
    the list of signals is empty, and the latest RSI, MACD, signal,
    histogram, moving averages and band values are all null. *)
Theorem short_history_summary (dates : list string) (close high low : list F)
    (volume : list Z) :
  1 <= len close < 15 ->
  exists s,
    compute_indicators dates close high low volume = Ok s /\
    Summary.signals s = [] /\
    Summary.data_points s = len close /\
    Some (Latest.close (Summary.latest s)) = last close /\
    Latest.rsi (Summary.latest s) = None /\
    Latest.macd (Summary.latest s) = None /\
    Latest.macd_signal (Summary.latest s) = None /\
    Latest.macd_histogram (Summary.latest s) = None /\
    Latest.sma_20 (Summary.latest s) = None /\
    Latest.sma_50 (Summary.latest s) = None /\
    Latest.sma_200 (Summary.latest s) = None /\
    Latest.bb_upper (Summary.latest s) = None /\
    Latest.bb_lower (Summary.latest s) = None.
Proof.
  intros Hlen.
  assert (close <> []) as Hne by (intros ->; unfold len in Hlen; simpl in Hlen; lia).
  assert (compute_rsi close 14 = Ok (pyrepeat None (len close))) as Hr.
  { unfold compute_rsi.
    by destruct (Z.ltb_spec (len close) (14 + 1)) as [_|?]; [|lia]. }
  assert (compute_bollinger_bands close 20 (of_Z 2) = Ok (Bands.mk [] [] []))
    as Hb.
  { unfold compute_bollinger_bands.
    by destruct (Z.ltb_spec (len close) 20) as [_|?]; [|lia]. }
  destruct (compute_indicators_Ok dates close high low volume _ _ Hne Hr Hb)
    as (s20 & s50 & s200 & m & p & Hs20 & Hs50 & Hs200 & Hm & _ & Hs).
  cbv zeta in Hs. eexists. split; [exact Hs|].
  rewrite sma_short in Hs20 by lia. injection Hs20 as <-.
  rewrite sma_short in Hs50 by lia. injection Hs50 as <-.
  rewrite sma_short in Hs200 by lia. injection Hs200 as <-.
  rewrite compute_macd_short in Hm by lia. injection Hm as <-.
  cbn [Summary.signals Summary.data_points Summary.latest Latest.close
       Latest.rsi Latest.macd Latest.macd_signal Latest.macd_histogram
       Latest.sma_20 Latest.sma_50 Latest.sma_200 Latest.bb_upper
       Latest.bb_lower Macd.macd Macd.signal Macd.histogram
       Bands.upper Bands.lower].
  rewrite !last_valid_pyrepeat. simpl.
  repeat (split; [done|]). split; [|done].
  destruct (last close) as [x|] eqn:Hlast; [done|].
  by apply last_None in Hlast.
Qed.

End SummaryLoops.

(** X8 at three closes. *)
Lemma short_history_summary_witness :
  1 <= len [10; 11; 12]%Q < 15 /\
  exists s,
    compute_indicators (H := exact_float sqrt6) [] [10; 11; 12]%Q [] [] [] = Ok s /\
    Summary.signals s = [] /\ Latest.sma_20 (Summary.latest s) = None.
Proof.
  split; [vm_compute; split; [discriminate|reflexivity]|].
  destruct (short_history_summary (H := exact_float sqrt6)
              [] [10; 11; 12]%Q [] [] [])
    as (s & Hs & Hsig & _ & _ & _ & _ & _ & _ & Hsma & _).
  { vm_compute. split; [discriminate|reflexivity]. }
  exists s. split; [exact Hs|]. split; [exact Hsig|exact Hsma].
Defined.

Section ExactSummary.
Context (rt : Q -> Q).
Local Open Scope Q_scope.
Local Abbreviation E := (exact_float rt).
#[local] Hint Extern 0 (PyFloat Q) => exact (exact_float rt) : typeclass_instances.

Lemma next_not_none_Some {A} (l : list (option A)) v :
  next_not_none l = Some v -> Some v ∈ l.
Proof.
  induction l as [|[w|] l IH]; simpl; [done| |].
  - intros [= ->]. left.
  - intros Hv. right. by apply IH.
Qed.

Lemma last_valid_Some (xs : list (option Q)) v :
  last_valid xs = Some v -> Some v ∈ xs.
Proof.
  unfold last_valid. intros Hv. apply next_not_none_Some in Hv.
  exact (proj1 (elem_of_reverse _ _) Hv).
Qed.

(** The default bands return for every series. *)
Lemma bollinger_default (close : list Q) :
  exists b, compute_bollinger_bands (H := E) close 20 (of_Z 2) = Ok b /\
    length (Bands.upper b) = (length close - 19)%nat /\
    length (Bands.middle b) = (length close - 19)%nat /\
    length (Bands.lower b) = (length close - 19)%nat.
Proof.
  destruct (Z.lt_ge_cases (len close) 20) as [Hshort|Hlong].
  - exists (Bands.mk [] [] []). split.
    + unfold compute_bollinger_bands.
      by destruct (Z.ltb_spec (len close) 20) as [_|?]; [|lia].
    + unfold len in Hshort. simpl. lia.
  - destruct (bollinger_series rt close 20 (of_Z 2)) as (b & Hb & Hu & Hm & Hl & _);
      [lia|lia|].
    exists b. split; [done|]. unfold len in *. lia.
Qed.

(** The summary returns for every series that is not empty. *)
Lemma summary_exact (dates : list string) (close high low : list Q)
    (volume : list Z) :
  close <> [] ->
  exists r b s20 s50 s200 m p,
    compute_rsi (H := E) close 14 = Ok r /\
    compute_bollinger_bands (H := E) close 20 (of_Z 2) = Ok b /\
    _sma (H := E) close 20 = Ok s20 /\ _sma (H := E) close 50 = Ok s50 /\
    _sma (H := E) close 200 = Ok s200 /\
    compute_macd (H := E) close 12 26 9 = Ok m /\
    (if (30 <=? len close)%Z then close !! (length close - 30)%nat
     else close !! 0%nat) = Some p /\
    let l := default 0 (last close) in
    let pct :=
      if @truthy Q E p then @fmul Q E (fquot (fsub l p) p) (of_Z 100) else 0 in
    compute_indicators (H := E) dates close high low volume
    = Ok {| Summary.rsi := r;
            Summary.macd := m;
            Summary.bollinger_bands := b;
            Summary.sma_20 := s20;
            Summary.sma_50 := s50;
            Summary.sma_200 := s200;
            Summary.latest :=
              {| Latest.close := l;
                 Latest.rsi := round_if (last_valid r);
                 Latest.macd := last (Macd.macd m);
                 Latest.macd_signal := last (Macd.signal m);
                 Latest.macd_histogram := last (Macd.histogram m);
                 Latest.sma_20 := round_if (last_valid s20);
                 Latest.sma_50 := round_if (last_valid s50);
                 Latest.sma_200 := round_if (last_valid s200);
                 Latest.bb_upper := last (Bands.upper b);
                 Latest.bb_lower := last (Bands.lower b);
                 Latest.trend :=
                   if @fltb Q E (of_Z 2) pct then "Uptrend"%string
                   else if @fltb Q E pct (of_Z (-2)) then "Downtrend"%string
                   else "Sideways"%string;
                 Latest.trend_30d_pct := Qround_digits 2 pct |};
            Summary.signals :=
              rsi_signal (last_valid r)
              ++ macd_signal (last (Macd.macd m)) (last (Macd.signal m))
              ++ cross_signal (last_valid s50) (last_valid s200)
              ++ band_signal l (last (Bands.upper b)) (last (Bands.lower b));
            Summary.data_points := len close |}.
Proof.
  intros Hne.
  destruct (compute_rsi_total rt close 14) as (r & Hr & _); [lia|].
  destruct (bollinger_default close) as (b & Hb & _).
  destruct (compute_indicators_Ok (H := E) dates close high low volume r b Hne Hr Hb)
    as (s20 & s50 & s200 & m & p & Hs20 & Hs50 & Hs200 & Hm & Hp & Hs).
  by exists r, b, s20, s50, s200, m, p.
Qed.

(** X9: in exact arithmetic, [compute_indicators] returns for every series
    of closes that is not empty.  The summary counts the closes, reports the
    last close, carries the series that the moving averages, the RSI, the
    MACD and the bands return on their own with the default parameters, and
    names one of three trends. *)
Theorem compute_indicators_returns (dates : list string)
    (close high low : list Q) (volume : list Z) :
  close <> [] ->
  exists s,
    compute_indicators (H := E) dates close high low volume = Ok s /\
    Summary.data_points s = len close /\
    Some (Latest.close (Summary.latest s)) = last close /\
    _sma (H := E) close 20 = Ok (Summary.sma_20 s) /\
    _sma (H := E) close 50 = Ok (Summary.sma_50 s) /\
    _sma (H := E) close 200 = Ok (Summary.sma_200 s) /\
    compute_rsi (H := E) close 14 = Ok (Summary.rsi s) /\
    compute_macd (H := E) close 12 26 9 = Ok (Summary.macd s) /\
    compute_bollinger_bands (H := E) close 20 2 = Ok (Summary.bollinger_bands s) /\
    Latest.trend (Summary.latest s)
      ∈ ["Uptrend"%string; "Downtrend"%string; "Sideways"%string].
Proof.
  intros Hne.
  destruct (summary_exact dates close high low volume Hne)
    as (r & b & s20 & s50 & s200 & m & p
        & Hr & Hb & Hs20 & Hs50 & Hs200 & Hm & Hp & Hs).
  cbv zeta in Hs. eexists. split; [exact Hs|].
  cbn [Summary.data_points Summary.latest Latest.close Summary.sma_20
       Summary.sma_50 Summary.sma_200 Summary.rsi Summary.macd
       Summary.bollinger_bands Latest.trend].
  split; [done|]. split.
  { destruct (last close) as [x|] eqn:Hlast; [done|].
    by apply last_None in Hlast. }
  do 6 (split; [done|]).
  destruct (fltb _ _); [left|].
  destruct (fltb _ _); [right; left|right; right; left].
Qed.

(** X10: in exact arithmetic, the trend compares the last close [l] with the
    reference price [p], the close thirty back or the first close of a
    shorter series.  For a positive reference the reported change is
    [(l - p) / p * 100] rounded to two decimals, and the trend is an uptrend
    exactly above [1.02 p], a downtrend exactly below [0.98 p], and sideways
    in between, both ends included. *)
Theorem trend_thresholds (dates : list string) (close high low : list Q)
    (volume : list Z) (p l : Q) :
  (if (30 <=? len close)%Z then close !! (length close - 30)%nat
   else close !! 0%nat) = Some p ->
  last close = Some l ->
  0 < p ->
  exists s,
    compute_indicators (H := E) dates close high low volume = Ok s /\
    Latest.trend_30d_pct (Summary.latest s)
    = Qround_digits 2 ((l - p) / p * 100) /\
    (Latest.trend (Summary.latest s) = "Uptrend"%string <-> (51 # 50) * p < l) /\
    (Latest.trend (Summary.latest s) = "Downtrend"%string <-> l < (49 # 50) * p) /\
    (Latest.trend (Summary.latest s) = "Sideways"%string
     <-> (49 # 50) * p <= l <= (51 # 50) * p).
Proof.
  intros Hp Hl Hpos.
  assert (close <> []) as Hne by (intros ->; discriminate).
  destruct (summary_exact dates close high low volume Hne)
    as (r & b & s20 & s50 & s200 & m & p'
        & Hr & Hb & Hs20 & Hs50 & Hs200 & Hm & Hp' & Hs).
  rewrite Hp in Hp'. injection Hp' as <-. rewrite Hl in Hs. cbv zeta in Hs.
  simpl default in Hs.
  assert (@truthy Q E p = true) as Htruthy.
  { unfold truthy. apply negb_true_iff, feqb_false.
    change (@zero Q E) with 0. lra. }
  rewrite Htruthy in Hs.
  eexists. split; [exact Hs|]. cbn [Summary.latest Latest.trend Latest.trend_30d_pct].
  set (pct := fmul (fquot (fsub l p) p) (of_Z 100)).
  assert (pct == (l - p) / p * 100) as Hpct.
  { unfold pct. simpl. rewrite !Qred_correct. reflexivity. }
  assert ((l - p) / p * 100 == (l / p - 1) * 100) as Hq by (field; lra).
  assert (l == l / p * p) as Hlp by (field; lra).
  set (q := l / p) in *.
  split; [by apply Qround_digits_2_comp|].
  destruct (@fltb Q E (of_Z 2) pct) eqn:Hup.
  { apply fltb_true in Hup. change (@of_Z Q E 2) with 2 in Hup.
    split; [|split]; (split; [intros; try discriminate|intros; try done]);
      try nra. }
  apply fltb_false in Hup. change (@of_Z Q E 2) with 2 in Hup.
  destruct (@fltb Q E pct (of_Z (-2))) eqn:Hdown.
  { apply fltb_true in Hdown. change (@of_Z Q E (-2)) with (-2) in Hdown.
    split; [|split]; (split; [intros; try discriminate|intros; try done]);
      try nra. }
  apply fltb_false in Hdown. change (@of_Z Q E (-2)) with (-2) in Hdown.
  split; [|split]; (split; [intros; try discriminate|intros; try done]);
    try nra.
Qed.

(** X11: in exact arithmetic, a reference price of zero never divides: the
    summary reports a change of zero and a sideways trend, whatever the last
    close. *)
Theorem trend_zero_reference (dates : list string) (close high low : list Q)
    (volume : list Z) (p : Q) :
  (if (30 <=? len close)%Z then close !! (length close - 30)%nat
   else close !! 0%nat) = Some p ->
  p == 0 ->
  exists s,
    compute_indicators (H := E) dates close high low volume = Ok s /\
    Latest.trend_30d_pct (Summary.latest s) = 0 /\
    Latest.trend (Summary.latest s) = "Sideways"%string.
Proof.
  intros Hp Hzero.
  assert (close <> []) as Hne.
  { intros ->. by destruct (30 <=? len []); discriminate. }
  destruct (summary_exact dates close high low volume Hne)
    as (r & b & s20 & s50 & s200 & m & p'
        & Hr & Hb & Hs20 & Hs50 & Hs200 & Hm & Hp' & Hs).
  rewrite Hp in Hp'. injection Hp' as <-. cbv zeta in Hs.
  assert (@truthy Q E p = false) as Htruthy.
  { unfold truthy. apply negb_false_iff, feqb_true. by change (@zero Q E) with 0. }
  rewrite Htruthy in Hs.
  eexists. split; [exact Hs|]. by split.
Qed.

End ExactSummary.

(** X9 at two closes. *)
Lemma compute_indicators_returns_witness :
  [10; 11]%Q <> [] /\
  exists s,
    compute_indicators (H := exact_float sqrt6) [] [10; 11]%Q [] [] [] = Ok s /\
    Summary.data_points s = 2.
Proof.
  split; [discriminate|].
  destruct (compute_indicators_returns sqrt6 [] [10; 11]%Q [] [] [])
    as (s & Hs & Hn & _); [discriminate|].
  exists s. split; [exact Hs|exact Hn].
Defined.

(** X10 at a rise from 100 to 103. *)
Lemma trend_thresholds_witness :
  (0 < 100)%Q /\
  exists s,
    compute_indicators (H := exact_float sqrt6) [] [100; 103]%Q [] [] [] = Ok s /\
    Latest.trend (Summary.latest s) = "Uptrend"%string /\
    Latest.trend_30d_pct (Summary.latest s) = 3%Q.
Proof.
  split; [reflexivity|].
  destruct (trend_thresholds sqrt6 [] [100; 103]%Q [] [] [] 100%Q 103%Q)
    as (s & Hs & Hpct & Hup & _); [reflexivity|reflexivity|reflexivity|].
  exists s. split; [exact Hs|]. split.
  - apply Hup. reflexivity.
  - rewrite Hpct. vm_compute. reflexivity.
Defined.

(** X11 at a series that starts at zero. *)
Lemma trend_zero_reference_witness :
  (0 == 0)%Q /\
  exists s,
    compute_indicators (H := exact_float sqrt6) [] [0; 5]%Q [] [] [] = Ok s /\
    Latest.trend (Summary.latest s) = "Sideways"%string.
Proof.
  split; [reflexivity|].
  destruct (trend_zero_reference sqrt6 [] [0; 5]%Q [] [] [] 0%Q)
    as (s & Hs & _ & Htrend); [reflexivity|reflexivity|].
  exists s. split; [exact Hs|exact Htrend].
Defined.

(** ** Monotone histories *)

Section ExactMonotone.
Context (rt : Q -> Q).
Local Open Scope Q_scope.
Local Abbreviation E := (exact_float rt).
#[local] Hint Extern 0 (PyFloat Q) => exact (exact_float rt) : typeclass_instances.

(** The values of the RSI over a strictly monotone series. *)
Lemma rsi_monotone_values (close : list Q) (period : Z) :
  (1 <= period)%Z -> (period + 1 <= len close)%Z ->
  exists vs,
    compute_rsi (H := E) close period = Ok vs /\
    vs !! Z.to_nat period <> Some None /\
    ((forall i a b, close !! i = Some a -> close !! S i = Some b -> a < b) ->
     forall v, Some v ∈ vs -> v = 100) /\
    ((forall i a b, close !! i = Some a -> close !! S i = Some b -> b < a) ->
     forall v, Some v ∈ vs -> v = 0).
Proof.
  intros Hp Hlen.
  destruct (compute_rsi_spec rt close period Hp Hlen)
    as (vs & Hvs & Hlenvs & Hnone & Hdef).
  exists vs. split; [done|]. split.
  { destruct (Hdef 0%nat) as (r & Hr & _); [unfold len in Hlen; lia|].
    rewrite Nat.add_0_r in Hr. by rewrite Hr. }
  assert (forall v, Some v ∈ vs ->
    exists j r, (Z.to_nat period + j < length close)%nat /\
      _rsi (H := E) (wilder_avg (gains_of close) period j)
           (wilder_avg (losses_of close) period j) = Ok r /\ r = v) as Hvals.
  { intros v [i Hi]%list_elem_of_lookup.
    pose proof (lookup_lt_Some _ _ _ Hi) as Hlt.
    destruct (decide (i < Z.to_nat period)%nat) as [Hsmall|Hbig].
    { rewrite Hnone in Hi by done. discriminate. }
    destruct (Hdef (i - Z.to_nat period)%nat) as (r & Hr & Hrsi); [lia|].
    replace (Z.to_nat period + (i - Z.to_nat period))%nat with i in Hr by lia.
    rewrite Hi in Hr. injection Hr as ->.
    exists (i - Z.to_nat period)%nat, r. split; [lia|]. by split. }
  assert (forall j v,
    _rsi (H := E) (wilder_avg (gains_of close) period j)
         (wilder_avg (losses_of close) period j) = Ok v ->
    (~ (wilder_avg (H := E) (gains_of close) period j == 0 /\
        wilder_avg (H := E) (losses_of close) period j == 0) ->
     wilder_avg (H := E) (losses_of close) period j == 0 -> v = 100) /\
    (~ wilder_avg (H := E) (losses_of close) period j == 0 ->
     v = Qround_digits 2
           (100 - 100 / (1 + wilder_avg (H := E) (gains_of close) period j
                              / wilder_avg (H := E) (losses_of close) period j))))
    as Hpolicy.
  { intros j v Hrsi.
    destruct (_rsi_exact rt period (wilder_avg (gains_of close) period j)
                (wilder_avg (losses_of close) period j))
      as (r' & Hr' & _ & _ & Hpol);
      [lia|apply wilder_avg_sign; [lia|apply gains_of_nonneg]
          |apply wilder_avg_sign; [lia|apply losses_of_nonneg]|].
    rewrite Hrsi in Hr'. by injection Hr' as <-. }
  split.
  - intros [Hg Hl]%(rising_steps rt) v (j & r & Hj & Hrsi & <-)%Hvals.
    destruct (Hpolicy j r Hrsi) as [Hgain _].
    pose proof (wilder_avg_pos rt (gains_of close) period j Hp Hg) as Hpos.
    rewrite length_gains_of in Hpos.
    apply Hgain; [|by apply wilder_avg_zero].
    intros [Hz _]. rewrite Hz in Hpos. apply (Qlt_irrefl 0), Hpos. lia.
  - intros [Hg Hl]%(falling_steps rt) v (j & r & Hj & Hrsi & <-)%Hvals.
    destruct (Hpolicy j r Hrsi) as [_ Hloss].
    pose proof (wilder_avg_pos rt (losses_of close) period j Hp Hl) as Hpos.
    rewrite length_losses_of in Hpos.
    pose proof (wilder_avg_zero rt (gains_of close) period j Hg) as Hz.
    rewrite Hloss by (intros Hzl; rewrite Hzl in Hpos; apply (Qlt_irrefl 0), Hpos; lia).
    change 0 with (inject_Z 0). rewrite <-(Qround_digits_2_Z 0).
    apply Qround_digits_2_comp. rewrite Hz. change (inject_Z 0) with 0.
    field. intros Hzl. rewrite Hzl in Hpos. apply (Qlt_irrefl 0), Hpos. lia.
Qed.

(** The last value of a series of the RSI with a single value throughout. *)
Lemma last_valid_constant (vs : list (option Q)) (i : nat) (c : Q) :
  vs !! i <> Some None -> (i < length vs)%nat ->
  (forall v, Some v ∈ vs -> v = c) ->
  last_valid vs = Some c.
Proof.
  intros Hi Hlt Hall.
  destruct (last_valid vs) as [v|] eqn:Hv.
  - f_equal. by apply Hall, last_valid_Some.
  - destruct (lookup_lt_is_Some_2 vs i Hlt) as [[w|] Hw]; [|done].
    exfalso. eapply (proj1 (last_valid_None vs) Hv w).
    by eapply list_elem_of_lookup_2.
Qed.

(** X12: in exact arithmetic, for a history of at least fifteen closes the
    summary of a strictly rising series reports an RSI of 100 and opens its
    signals with the overbought line, and the summary of a strictly falling
    series opens its signals with the oversold line at an RSI of 0.0 while
    its latest RSI is null, the last value of the series being the zero. *)
Theorem monotone_history_summary (dates : list string)
    (close high low : list Q) (volume : list Z) :
  (15 <= len close)%Z ->
  exists s,
    compute_indicators (H := E) dates close high low volume = Ok s /\
    ((forall i a b, close !! i = Some a -> close !! S i = Some b -> a < b) ->
     Latest.rsi (Summary.latest s) = Some 100 /\
     head (Summary.signals s)
     = Some "RSI 100.0: Overbought — potential pullback."%string) /\
    ((forall i a b, close !! i = Some a -> close !! S i = Some b -> b < a) ->
     last_valid (Summary.rsi s) = Some 0 /\
     Latest.rsi (Summary.latest s) = None /\
     head (Summary.signals s)
     = Some "RSI 0.0: Oversold — potential bounce."%string).
Proof.
  intros Hlen.
  assert (close <> []) as Hne by (intros ->; unfold len in Hlen; simpl in Hlen; lia).
  destruct (summary_exact rt dates close high low volume Hne)
    as (r & b & s20 & s50 & s200 & m & p
        & Hr & Hb & Hs20 & Hs50 & Hs200 & Hm & Hp & Hs).
  cbv zeta in Hs. eexists. split; [exact Hs|].
  cbn [Summary.latest Summary.signals Summary.rsi Latest.rsi].
  destruct (rsi_monotone_values close 14) as (r' & Hr' & Hdef & Hup & Hdown);
    [lia|lia|].
  rewrite Hr in Hr'. injection Hr' as <-.
  destruct (compute_rsi_total rt close 14) as (r' & Hr' & Hlr); [lia|].
  rewrite Hr in Hr'. injection Hr' as <-.
  assert (14 < length r)%nat as Hlt by (unfold len in Hlen; lia).
  split.
  - intros Hrising.
    rewrite (last_valid_constant r 14 100 Hdef Hlt (Hup Hrising)).
    split; reflexivity.
  - intros Hfalling.
    rewrite (last_valid_constant r 14 0 Hdef Hlt (Hdown Hfalling)).
    split; [reflexivity|]. split; reflexivity.
Qed.

End ExactMonotone.

(** X12 at the closes 1, 2, ..., 16 and the closes 16, 15, ..., 1. *)
Lemma monotone_history_summary_witness :
  15 <= len (inject_Z <$> seqZ 1 16) /\
  (exists s,
     compute_indicators (H := exact_float sqrt6)
       [] (inject_Z <$> seqZ 1 16) [] [] [] = Ok s /\
     Latest.rsi (Summary.latest s) = Some 100%Q) /\
  (exists s,
     compute_indicators (H := exact_float sqrt6)
       [] (inject_Z <$> reverse (seqZ 1 16)) [] [] [] = Ok s /\
     Latest.rsi (Summary.latest s) = None).
Proof.
  split; [vm_compute; discriminate|]. split.
  - destruct (monotone_history_summary sqrt6 [] (inject_Z <$> seqZ 1 16) [] [] [])
      as (s & Hs & Hup & _); [vm_compute; discriminate|].
    exists s. split; [exact Hs|]. apply Hup.
    intros i a b Ha Hb.
    do 15 (destruct i as [|i];
           [injection Ha as <-; injection Hb as <-; reflexivity|]).
    destruct i; discriminate.
  - destruct (monotone_history_summary sqrt6 []
                (inject_Z <$> reverse (seqZ 1 16)) [] [] [])
      as (s & Hs & _ & Hdown); [vm_compute; discriminate|].
    exists s. split; [exact Hs|]. apply Hdown.
    intros i a b Ha Hb.
    do 15 (destruct i as [|i];
           [injection Ha as <-; injection Hb as <-; reflexivity|]).
    destruct i; discriminate.
Defined.

(** ** The technical chart *)

Section ChartLoops.
Context {F : Type} `{PyFloat F}.

(** The length of the series of [_sma]: the markers, then one value per
    position from [period - 1] on. *)
Lemma length_sma (values : list F) (period : Z) (r : list (option F)) :
  1 <= period -> _sma values period = Ok r ->
  length r = (Z.to_nat (period - 1) + Z.to_nat (len values - (period - 1)))%nat.
Proof.
  intros Hp Hr. destruct (sma_tail values period Hp) as (tail & Htail & Hlen & _).
  unfold _sma in Hr. rewrite Htail, res_bind_Ok in Hr. injection Hr as <-.
  by rewrite length_app, length_pyrepeat, Hlen.
Qed.

(** The three series of the MACD are equally long, and not longer than the
    closes. *)
Lemma macd_default_shape (close : list F) (m : Macd.t F) :
  compute_macd close 12 26 9 = Ok m ->
  length (Macd.signal m) = length (Macd.macd m) /\
  length (Macd.histogram m) = length (Macd.macd m) /\
  (length (Macd.macd m) <= length close)%nat.
Proof.
  destruct (Z.lt_ge_cases (len close) 35) as [Hshort|Hlong].
  { rewrite compute_macd_short by done. intros [= <-]. simpl. lia. }
  rewrite compute_macd_default by done. intros Hm.
  assert (m = Macd.mk (fround 4 <$> drop 8 (macd_line_of close))
                      (fround 4 <$> signal_line_of close)
                      (zip_with (fun m s => fround 4 (fsub m s))
                         (drop 8 (macd_line_of close)) (signal_line_of close)))
    as -> by congruence.
  cbn [Macd.macd Macd.signal Macd.histogram]. unfold len in *.
  rewrite !length_fmap, length_zip_with, length_drop.
  unfold signal_line_of. rewrite length_ema_series.
  rewrite length_macd_line_of by lia.
  change (Z.to_nat 9) with 9%nat. lia.
Qed.

(** [dates[n - k:]] holds the last [k] dates. *)
Lemma length_date_suffix {A} (dates : list A) (k : nat) :
  (k <= length dates)%nat ->
  length (pyslice dates (Some (len dates - Z.of_nat k)) None) = k.
Proof.
  intros Hk. unfold len. rewrite pyslice_suffix by lia.
  rewrite length_drop. lia.
Qed.

End ChartLoops.

Section ExactCharts.
Context (rt : Q -> Q) (upper : string -> string).
Local Open Scope Q_scope.
Local Abbreviation E := (exact_float rt).
#[local] Hint Extern 0 (PyFloat Q) => exact (exact_float rt) : typeclass_instances.

(** X13: in exact arithmetic, for a fetched history that is not empty and
    has as many dates as closes, [build_technical_chart] returns a
    specification with twelve traces.  Every trace pairs each [x] with a [y],
    except the two moving averages on a short history: the trace SMA 20
    carries 19 values for fewer than 19 dates, and the trace SMA 50 carries
    49 values for fewer than 49 dates.  So all traces are aligned exactly
    when the history has at least 49 closes. *)
Theorem technical_chart_alignment (ticker period : string) (hist : Hist.t Q) :
  Hist.close hist <> [] ->
  length (Hist.dates hist) = length (Hist.close hist) ->
  exists traces layout config,
    build_technical_chart (H := E) upper ticker period (Fetched hist)
    = Ok (JDict [("data"%string, JList traces); ("layout"%string, layout);
                 ("config"%string, config)]) /\
    length traces = 12%nat /\
    (forall t, t ∈ traces ->
       aligned t \/
       (named "SMA 20" t /\ (len (Hist.close hist) < 19)%Z) \/
       (named "SMA 50" t /\ (len (Hist.close hist) < 49)%Z)) /\
    (Forall aligned traces <-> (49 <= len (Hist.close hist))%Z).
Proof.
  destruct hist as [dates opens highs lows closes volumes].
  cbn [Hist.close Hist.dates]. intros Hne Hdates.
  destruct (summary_exact rt dates closes highs lows volumes Hne)
    as (r & b & s20 & s50 & s200 & m & p
        & Hr & Hb & Hs20 & Hs50 & Hs200 & Hm & Hp & Hs).
  cbv zeta in Hs.
  destruct (compute_rsi_total rt closes 14) as (r' & Hr' & Hlr); [lia|].
  rewrite Hr in Hr'. injection Hr' as <-.
  destruct (bollinger_default rt closes) as (b' & Hb' & Hbu & Hbm & Hbl).
  rewrite Hb in Hb'. injection Hb' as <-.
  apply length_sma in Hs20; [|lia]. apply length_sma in Hs50; [|lia].
  apply macd_default_shape in Hm as (Hms & Hmh & Hmm).
  pose proof (length_date_suffix dates (length (Bands.upper b))) as Hbd.
  pose proof (length_date_suffix dates (length (Macd.macd m))) as Hmd.
  specialize (Hbd ltac:(lia)). specialize (Hmd ltac:(lia)).
  unfold build_technical_chart. cbn [Hist.close Hist.dates Hist.high Hist.low Hist.volume].
  rewrite Hs, res_bind_Ok. cbv beta zeta.
  cbn [Summary.sma_20 Summary.sma_50 Summary.sma_200 Summary.rsi Summary.macd
       Summary.bollinger_bands].
  change (len dates - len (Bands.upper b))%Z
    with (len dates - Z.of_nat (length (Bands.upper b)))%Z.
  change (len dates - len (Macd.macd m))%Z
    with (len dates - Z.of_nat (length (Macd.macd m)))%Z.
  set (bb_dates :=
         pyslice dates (Some (len dates - Z.of_nat (length (Bands.upper b)))%Z) None)
    in *.
  set (macd_dates :=
         pyslice dates (Some (len dates - Z.of_nat (length (Macd.macd m)))%Z) None)
    in *.
  eexists _, _, _. split; [reflexivity|]. split; [reflexivity|].
  unfold len in Hs20, Hs50 |- *.
  assert (length (pyrepeat (@JInt Q 70) (Z.of_nat (length dates))) = length dates)
    as H70 by (rewrite length_pyrepeat; lia).
  assert (length (pyrepeat (@JInt Q 30) (Z.of_nat (length dates))) = length dates)
    as H30 by (rewrite length_pyrepeat; lia).
  assert (forall (d : list (string * json Q)) xs ys,
    dict_get "x"%string d = Some (JList xs) ->
    dict_get "y"%string d = Some (JList ys) ->
    length xs = length ys -> aligned (JDict d)) as Hal.
  { intros d xs ys Hx Hy Hxy. by exists d, xs, ys. }
  assert (forall xs (ys : list (option Q)) name rest,
    aligned (JDict ([("type"%string, JStr "scatter");
                     ("x"%string, JList (JStr <$> xs));
                     ("y"%string, JList (opt_json <$> ys));
                     ("name"%string, JStr name)] ++ rest)) ->
    length xs = length ys) as Hinv.
  { intros xs ys name rest (d & xs' & ys' & [= <-] & [= <-] & [= <-] & Hxy).
    by rewrite !length_fmap in Hxy. }
  split; [|split].
  - intros t Ht.
    repeat (apply elem_of_cons in Ht as [->|Ht];
            [first
               [ left; eapply Hal; [reflexivity|reflexivity|];
                 rewrite ?length_fmap; lia
               | idtac ]|]);
      [| |by apply elem_of_nil in Ht].
    + destruct (decide (Z.of_nat (length closes) < 19)%Z) as [Hshort|Hlong].
      * right; left. split; [|done]. eexists. split; reflexivity.
      * left. eapply Hal; [reflexivity|reflexivity|]. rewrite !length_fmap. lia.
    + destruct (decide (Z.of_nat (length closes) < 49)%Z) as [Hshort|Hlong].
      * right; right. split; [|done]. eexists. split; reflexivity.
      * left. eapply Hal; [reflexivity|reflexivity|]. rewrite !length_fmap. lia.
  - intros Hall.
    do 5 (apply Forall_cons in Hall as [_ Hall]).
    apply Forall_cons in Hall as [H50 _].
    apply (Hinv dates s50 "SMA 50"%string
             [("line"%string, _); ("yaxis"%string, _)]) in H50. lia.
  - intros Hlong.
    repeat (apply Forall_cons; split;
            [eapply Hal; [reflexivity|reflexivity|]; rewrite ?length_fmap; lia|]).
    apply Forall_nil_2.
Qed.

End ExactCharts.

(** X13 at a history of three days: the moving averages are longer than the
    dates. *)
Lemma technical_chart_alignment_witness :
  exists traces layout config,
    build_technical_chart (H := exact_float sqrt6) id "abc" "6mo"
      (Fetched (Hist.mk ["d1"; "d2"; "d3"]%string [] [] [] [10; 11; 12]%Q []))
    = Ok (JDict [("data"%string, JList traces); ("layout"%string, layout);
                 ("config"%string, config)]) /\
    length traces = 12%nat /\
    ~ Forall aligned traces.
Proof.
  destruct (technical_chart_alignment sqrt6 id "abc" "6mo"
              (Hist.mk ["d1"; "d2"; "d3"]%string [] [] [] [10; 11; 12]%Q []))
    as (traces & layout & config & Hchart & Hlen & _ & Hall);
    [discriminate|reflexivity|].
  exists traces, layout, config. split; [exact Hchart|]. split; [exact Hlen|].
  intros Haligned. apply Hall in Haligned. vm_compute in Haligned.
  apply Haligned. reflexivity.
Defined.

(** ** The layout *)

Section Layout.
Context {F : Type}.

Lemma dict_get_set {V} (k k' : string) (v : V) (d : list (string * V)) :
  dict_get k (dict_set k' v d) = if String.eqb k k' then Some v else dict_get k d.
Proof.
  induction d as [|[k0 v0] d IH]; simpl; [done|].
  destruct (String.eqb_spec k' k0) as [->|Hne]; simpl.
  - by destruct (String.eqb k k0).
  - rewrite IH. destruct (String.eqb_spec k k0) as [->|?]; [|done].
    by destruct (String.eqb_spec k0 k').
Qed.

Lemma dict_get_absent {V} (k : string) (d : list (string * V)) :
  k ∉ d.*1 -> dict_get k d = None.
Proof.
  induction d as [|[k0 v0] d IH]; simpl; [done|]. intros Hk.
  apply not_elem_of_cons in Hk as [Hne Hk].
  destruct (String.eqb_spec k k0); [done|]. by apply IH.
Qed.

(** Looking a key up after [d.update(extra)]. *)
Lemma dict_get_update {V} (k : string) (d extra : list (string * V)) :
  NoDup extra.*1 ->
  dict_get k (dict_update d extra)
  = match dict_get k extra with
    | Some v => Some v
    | None => dict_get k d
    end.
Proof.
  unfold dict_update. revert d.
  induction extra as [|[k0 v0] extra IH]; intros d Hnd; simpl; [done|].
  apply NoDup_cons in Hnd as [Hk0 Hnd].
  rewrite IH by done. rewrite dict_get_set.
  destruct (String.eqb_spec k k0) as [->|Hne]; [|done].
  by rewrite dict_get_absent.
Qed.

(** X14: [_dark_layout] merges one level deep.  For an [extra] with distinct
    keys, a key of [extra] maps to the value [extra] gives it, the dict of
    the theme under that key being dropped as a whole, and every other key
    maps to what the layout holds without [extra]. *)
Theorem dark_layout_override (title k : string) (extra : list (string * json F)) :
  NoDup extra.*1 ->
  dict_get k (_dark_layout title (Some extra))
  = match dict_get k extra with
    | Some v => Some v
    | None => dict_get k (_dark_layout title None)
    end.
Proof.
  intros Hnd. unfold _dark_layout.
  destruct extra as [|kv extra]; [done|].
  by rewrite dict_get_update.
Qed.

End Layout.

(** X14 at the x axis of the technical chart: the line colour of the theme
    is gone. *)
Lemma dark_layout_override_witness :
  NoDup ["xaxis"; "height"]%string /\
  dict_get "xaxis"%string
    (_dark_layout (F := Q) "t"
       (Some [("xaxis", JDict [("gridcolor", JStr "#1e2130"); ("type", JStr "date")]);
              ("height", JInt 700)]%string))
  = Some (JDict [("gridcolor", JStr "#1e2130"); ("type", JStr "date")]%string) /\
  dict_get "hovermode"%string
    (_dark_layout (F := Q) "t"
       (Some [("xaxis", JDict [("gridcolor", JStr "#1e2130"); ("type", JStr "date")]);
              ("height", JInt 700)]%string))
  = Some (JStr "x unified").
Proof.
  assert (NoDup ["xaxis"; "height"]%string) as Hnd.
  { apply NoDup_cons. split; [|apply NoDup_singleton].
    intros Hin. apply list_elem_of_singleton in Hin. discriminate. }
  split; [exact Hnd|].
  split; rewrite (dark_layout_override (F := Q)) by exact Hnd; reflexivity.
Defined.

(** ** Shifting the prices *)

Section ExactShift.
Context (rt : Q -> Q).
Local Open Scope Q_scope.
Local Abbreviation E := (exact_float rt).
#[local] Hint Extern 0 (PyFloat Q) => exact (exact_float rt) : typeclass_instances.

Lemma Qround_digits_4_comp (p q : Q) :
  p == q -> Qround_digits 4 p = Qround_digits 4 q.
Proof.
  intros Hpq. rewrite !Qround_digits_4. apply Qred_complete.
  rewrite (round_half_even_comp (p * 10000) (q * 10000)); [reflexivity|].
  by rewrite Hpq.
Qed.

Lemma zip_with_pointwise {A B C A' B'} (R1 : A -> A' -> Prop) (R2 : B -> B' -> Prop)
    (f : A -> B -> C) (g : A' -> B' -> C) l1 l1' l2 l2' :
  (forall a a' b b', R1 a a' -> R2 b b' -> f a b = g a' b') ->
  Forall2 R1 l1 l1' -> Forall2 R2 l2 l2' ->
  zip_with f l1 l2 = zip_with g l1' l2'.
Proof.
  intros Hfg H1. revert l2 l2'.
  induction H1 as [|a a' l1 l1' Ha H1 IH]; intros l2 l2' H2; [done|].
  destruct H2 as [|b b' l2 l2' Hb H2]; [done|].
  simpl. f_equal; [by apply Hfg|by apply IH].
Qed.

(** The steps of a shifted series are the steps of the series. *)
Lemma steps_shift (c : Q) (close : list Q) :
  gains_of (H := E) ((fun x => fadd x c) <$> close) = gains_of (H := E) close /\
  losses_of (H := E) ((fun x => fadd x c) <$> close) = losses_of (H := E) close.
Proof.
  assert (Forall2 (fun a b : Q => a == b + c) ((fun x => fadd x c) <$> close) close)
    as Hall.
  { apply Forall2_fmap_l, Forall_Forall2_diag, Forall_forall.
    intros x _. simpl. by rewrite Qred_correct. }
  assert (Forall2 (fun a b : Q => a == b + c)
            (tail ((fun x => fadd x c) <$> close)) (tail close)) as Htl.
  { destruct Hall; [constructor|done]. }
  assert (forall a a' b b' : Q, a == a' + c -> b == b' + c ->
            @fsub Q E b a = @fsub Q E b' a') as Hsub.
  { intros a a' b b' Ha Hb. simpl. apply Qred_complete. rewrite Ha, Hb. ring. }
  unfold gains_of, losses_of. split.
  - eapply zip_with_pointwise; [|exact Hall|exact Htl].
    intros a a' b b' Ha Hb. cbv beta in *. by rewrite (Hsub a a' b b').
  - eapply zip_with_pointwise; [|exact Hall|exact Htl].
    intros a a' b b' Ha Hb. cbv beta in *. by rewrite (Hsub a a' b b').
Qed.

(** X15: in exact arithmetic the RSI reads the day-to-day changes only:
    adding a constant to every close leaves the result of [compute_rsi]
    unchanged, the series and the exceptions alike, for every period. *)
Theorem rsi_shift_invariant (c : Q) (close : list Q) (period : Z) :
  compute_rsi (H := E) ((fun x => fadd x c) <$> close) period
  = compute_rsi (H := E) close period.
Proof.
  destruct (steps_shift c close) as [Hg Hl].
  unfold compute_rsi. rewrite !gain_loss_loop, Hg, Hl.
  unfold len. by rewrite length_fmap.
Qed.

Lemma pysum_shift (c : Q) (xs : list Q) (a a' d : Q) :
  a' == a + d ->
  foldl (@fadd Q E) a' ((fun x => fadd x c) <$> xs)
  == foldl (@fadd Q E) a xs + d + inject_Z (len xs) * c.
Proof.
  revert a a' d. induction xs as [|x xs IH]; intros a a' d Ha.
  - simpl. change (inject_Z (len [])) with 0. rewrite Ha. ring.
  - change (foldl (@fadd Q E) a' ((fun x => fadd x c) <$> x :: xs))
      with (foldl (@fadd Q E) (fadd a' (fadd x c)) ((fun x => fadd x c) <$> xs)).
    change (foldl (@fadd Q E) a (x :: xs)) with (foldl (@fadd Q E) (fadd a x) xs).
    rewrite (IH (fadd a x) (fadd a' (fadd x c)) (d + c))
      by (simpl; rewrite !Qred_correct, Ha; ring).
    unfold len. simpl length. rewrite Nat2Z.inj_succ, <-Z.add_1_r, inject_Z_plus.
    change (inject_Z 1) with 1. ring.
Qed.

Lemma ema_loop_shift (c k prev prev' : Q) (ps : list Q) :
  prev' == prev + c ->
  Forall2 (fun a b : Q => a == b + c)
    (ema_loop (H := E) k prev' ((fun x => fadd x c) <$> ps))
    (ema_loop (H := E) k prev ps).
Proof.
  revert prev prev'. induction ps as [|p ps IH]; intros prev prev' Hprev.
  - constructor.
  - change (Forall2 (fun a b : Q => a == b + c)
      (fadd (fmul (fadd p c) k) (fmul prev' (fsub (of_Z 1) k))
       :: ema_loop (H := E) k
            (fadd (fmul (fadd p c) k) (fmul prev' (fsub (of_Z 1) k)))
            ((fun x => fadd x c) <$> ps))
      (fadd (fmul p k) (fmul prev (fsub (of_Z 1) k))
       :: ema_loop (H := E) k
            (fadd (fmul p k) (fmul prev (fsub (of_Z 1) k))) ps)).
    assert (@fadd Q E (fmul (fadd p c) k) (fmul prev' (fsub (of_Z 1) k))
            == @fadd Q E (fmul p k) (fmul prev (fsub (of_Z 1) k)) + c) as He.
    { simpl. rewrite !Qred_correct, Hprev. change (inject_Z 1) with 1. ring. }
    constructor; [exact He|]. by apply IH.
Qed.

(** The moving average of a shifted series is the shifted moving average. *)
Lemma ema_series_shift (c : Q) (prices : list Q) (period : Z) :
  (1 <= period)%Z -> (period <= len prices)%Z ->
  Forall2 (fun a b : Q => a == b + c)
    (ema_series (H := E) ((fun x => fadd x c) <$> prices) period)
    (ema_series (H := E) prices period).
Proof.
  intros Hp Hlen. unfold ema_series. cbv zeta.
  rewrite <-fmap_take, <-fmap_drop.
  assert (@fquot Q E (pysum ((fun x => fadd x c) <$> take (Z.to_nat period) prices))
                     (of_Z period)
          == @fquot Q E (pysum (take (Z.to_nat period) prices)) (of_Z period) + c)
    as Hseed.
  { assert (len (take (Z.to_nat period) prices) = period) as Hlt.
    { unfold len in *. rewrite length_take. lia. }
    assert (pysum (H := E) ((fun x => fadd x c) <$> take (Z.to_nat period) prices)
            == pysum (H := E) (take (Z.to_nat period) prices) + inject_Z period * c)
      as Hsum.
    { unfold pysum.
      etransitivity;
        [apply (pysum_shift c _ zero zero 0); change (@zero Q E) with 0; ring|].
      rewrite Hlt. ring. }
    set (s' := pysum _) in *. set (s0 := pysum _) in *.
    simpl. rewrite !Qred_correct, Hsum. field. intros Hz.
    assert (0 < inject_Z period) by (apply inject_Z_pos; lia). lra. }
  constructor; [exact Hseed|]. by apply ema_loop_shift.
Qed.

Lemma macd_line_shift (c : Q) (close : list Q) :
  (26 <= len close)%Z ->
  macd_line_of (H := E) ((fun x => fadd x c) <$> close)
  = macd_line_of (H := E) close.
Proof.
  intros Hlen. unfold macd_line_of.
  eapply zip_with_pointwise;
    [|apply Forall2_drop, (ema_series_shift c close 12); lia
     |apply (ema_series_shift c close 26); lia].
  intros a a' b b' Ha Hb. cbv beta in *.
  apply Qround_digits_4_comp. simpl. rewrite !Qred_correct, Ha, Hb. ring.
Qed.

(** X16: in exact arithmetic the MACD reads price differences only: adding
    a constant to every close leaves the three series that [compute_macd]
    returns with the default periods unchanged. *)
Theorem macd_shift_invariant (c : Q) (close : list Q) :
  compute_macd (H := E) ((fun x => fadd x c) <$> close) 12 26 9
  = compute_macd (H := E) close 12 26 9.
Proof.
  assert (len ((fun x => @fadd Q E x c) <$> close) = len close) as Hlen
    by (unfold len; by rewrite length_fmap).
  destruct (Z.lt_ge_cases (len close) 35) as [Hshort|Hlong].
  - by rewrite !compute_macd_short by lia.
  - rewrite !compute_macd_default by lia.
    unfold signal_line_of. by rewrite macd_line_shift by lia.
Qed.

End ExactShift.

(** ** Scaling the prices *)

Section ExactScale.
Context (rt : Q -> Q).
Local Open Scope Q_scope.
Local Abbreviation E := (exact_float rt).
#[local] Hint Extern 0 (PyFloat Q) => exact (exact_float rt) : typeclass_instances.

Lemma pymax_scale (c x x' : Q) :
  0 < c -> x' == x * c -> @pymax Q E x' zero == @pymax Q E x zero * c.
Proof.
  intros Hc Hx. unfold pymax. change (@zero Q E) with 0.
  destruct (@fltb Q E x' 0) eqn:H1; destruct (@fltb Q E x 0) eqn:H2;
    first [apply fltb_true in H1 | apply fltb_false in H1];
    first [apply fltb_true in H2 | apply fltb_false in H2];
    rewrite ?Hx in *; try ring; try done; nra.
Qed.

(** The steps of a scaled series are the scaled steps of the series. *)
Lemma steps_scale (c : Q) (close : list Q) :
  0 < c ->
  Forall2 (fun a b : Q => a == b * c)
    (gains_of (H := E) ((fun x => fmul x c) <$> close)) (gains_of (H := E) close) /\
  Forall2 (fun a b : Q => a == b * c)
    (losses_of (H := E) ((fun x => fmul x c) <$> close)) (losses_of (H := E) close).
Proof.
  intros Hc.
  assert (forall i z, gains_of (H := E) ((fun x => fmul x c) <$> close) !! i = Some z ->
            exists z0, gains_of (H := E) close !! i = Some z0 /\ z == z0 * c) as Hg.
  { intros i z (prev & cur & Hprev & Hcur & ->)%lookup_gains_of.
    rewrite list_lookup_fmap in Hprev, Hcur.
    destruct (close !! i) as [p|] eqn:Hp; [|discriminate].
    destruct (close !! S i) as [q|] eqn:Hq; [|discriminate].
    injection Hprev as <-. injection Hcur as <-.
    exists (pymax (fsub q p) zero). split.
    - apply lookup_gains_of. by exists p, q.
    - apply pymax_scale; [done|]. simpl. rewrite !Qred_correct. ring. }
  assert (forall i z, losses_of (H := E) ((fun x => fmul x c) <$> close) !! i = Some z ->
            exists z0, losses_of (H := E) close !! i = Some z0 /\ z == z0 * c) as Hl.
  { intros i z (prev & cur & Hprev & Hcur & ->)%lookup_losses_of.
    rewrite list_lookup_fmap in Hprev, Hcur.
    destruct (close !! i) as [p|] eqn:Hp; [|discriminate].
    destruct (close !! S i) as [q|] eqn:Hq; [|discriminate].
    injection Hprev as <-. injection Hcur as <-.
    exists (pymax (fneg (fsub q p)) zero). split.
    - apply lookup_losses_of. by exists p, q.
    - apply pymax_scale; [done|]. simpl. rewrite !Qred_correct. ring. }
  split; apply Forall2_same_length_lookup_2.
  - by rewrite !length_gains_of, length_fmap.
  - intros i z z0 Hz Hz0. destruct (Hg i z Hz) as (z1 & Hz1 & Heq).
    rewrite Hz0 in Hz1. by injection Hz1 as <-.
  - by rewrite !length_losses_of, length_fmap.
  - intros i z z0 Hz Hz0. destruct (Hl i z Hz) as (z1 & Hz1 & Heq).
    rewrite Hz0 in Hz1. by injection Hz1 as <-.
Qed.

Lemma pysum_scale (c : Q) (xs' xs : list Q) (a' a : Q) :
  a' == a * c -> Forall2 (fun x' x : Q => x' == x * c) xs' xs ->
  foldl (@fadd Q E) a' xs' == foldl (@fadd Q E) a xs * c.
Proof.
  intros Ha Hxs. revert a' a Ha.
  induction Hxs as [|x' x xs' xs Hx Hxs IH]; intros a' a Ha; [done|].
  simpl. apply IH. rewrite !Qred_correct, Ha, Hx. ring.
Qed.

(** Wilder's averages of scaled steps are the scaled averages. *)
Lemma wilder_avg_scale (c : Q) (xs' xs : list Q) (period : Z) (j : nat) :
  Forall2 (fun x' x : Q => x' == x * c) xs' xs ->
  wilder_avg (H := E) xs' period j == wilder_avg (H := E) xs period j * c.
Proof.
  intros Hxs. induction j as [|j IH].
  - assert (pysum (H := E) (take (Z.to_nat period) xs')
            == pysum (H := E) (take (Z.to_nat period) xs) * c) as Hsum.
    { unfold pysum. apply pysum_scale; [|by apply Forall2_take].
      change (@zero Q E) with 0. ring. }
    change (wilder_avg (H := E) xs' period 0)
      with (@fquot Q E (pysum (take (Z.to_nat period) xs')) (of_Z period)).
    change (wilder_avg (H := E) xs period 0)
      with (@fquot Q E (pysum (take (Z.to_nat period) xs)) (of_Z period)).
    set (s' := pysum _) in *. set (s0 := pysum _) in *.
    simpl. rewrite !Qred_correct, Hsum. unfold Qdiv. ring.
  - rewrite !wilder_avg_S. simpl. rewrite !Qred_correct, IH.
    assert (default (@zero Q E) (xs' !! (Z.to_nat period + j)%nat)
            == default (@zero Q E) (xs !! (Z.to_nat period + j)%nat) * c) as ->.
    { destruct (xs' !! _) as [x'|] eqn:Hx'.
      - destruct (Forall2_lookup_l _ _ _ _ _ Hxs Hx') as (x & -> & Hx). done.
      - apply lookup_ge_None in Hx'. rewrite (Forall2_length _ _ _ Hxs) in Hx'.
        rewrite (proj2 (lookup_ge_None _ _) Hx'). simpl.
        change (@zero Q E) with 0. ring. }
    change (@zero Q E) with (inject_Z 0). unfold Qdiv. ring.
Qed.

(** [_rsi] reads the ratio of its arguments. *)
Lemma _rsi_scale (c ag' al' ag al : Q) :
  0 < c -> ag' == ag * c -> al' == al * c ->
  _rsi (H := E) ag' al' = _rsi (H := E) ag al.
Proof.
  intros Hc Hag Hal. unfold _rsi.
  assert (@feqb Q E ag' zero = @feqb Q E ag zero) as ->.
  { change (@zero Q E) with 0.
    destruct (@feqb Q E ag 0) eqn:H0.
    - apply feqb_true in H0. apply feqb_true. rewrite Hag, H0. ring.
    - apply feqb_false in H0. apply feqb_false. rewrite Hag. intros Hz.
      apply H0. nra. }
  assert (@feqb Q E al' zero = @feqb Q E al zero) as Hzl.
  { change (@zero Q E) with 0.
    destruct (@feqb Q E al 0) eqn:H0.
    - apply feqb_true in H0. apply feqb_true. rewrite Hal, H0. ring.
    - apply feqb_false in H0. apply feqb_false. rewrite Hal. intros Hz.
      apply H0. nra. }
  rewrite Hzl. destruct (@feqb Q E al zero) eqn:Hz; [done|].
  assert (pydiv (H := E) ag' al' = pydiv (H := E) ag al) as ->; [|done].
  unfold pydiv. rewrite Hzl, Hz. f_equal.
  simpl. apply Qred_complete. rewrite Hag, Hal.
  apply feqb_false in Hz. change (@zero Q E) with 0 in Hz. field. split; lra.
Qed.

(** X17: in exact arithmetic the RSI does not depend on the unit of the
    price: for a look-back period of at least one, multiplying every close
    by a positive constant leaves the series that [compute_rsi] returns
    unchanged. *)
Theorem rsi_scale_invariant (c : Q) (close : list Q) (period : Z) :
  0 < c -> (1 <= period)%Z ->
  compute_rsi (H := E) ((fun x => fmul x c) <$> close) period
  = compute_rsi (H := E) close period.
Proof.
  intros Hc Hp.
  assert (len ((fun x => @fmul Q E x c) <$> close) = len close) as Hlen
    by (unfold len; by rewrite length_fmap).
  destruct (Z.lt_ge_cases (len close) (period + 1)) as [Hshort|Hlong].
  { unfold compute_rsi. rewrite Hlen.
    by destruct (Z.ltb_spec (len close) (period + 1)) as [_|?]; [|lia]. }
  destruct (compute_rsi_spec rt close period Hp Hlong)
    as (vs & -> & Hlvs & Hnone & Hdef).
  destruct (compute_rsi_spec rt ((fun x => fmul x c) <$> close) period Hp)
    as (vs' & -> & Hlvs' & Hnone' & Hdef'); [lia|].
  rewrite length_fmap in Hlvs', Hdef'.
  destruct (steps_scale c close Hc) as [Hg Hl].
  f_equal. apply list_eq. intros i.
  destruct (decide (i < Z.to_nat period)%nat) as [Hsmall|Hbig].
  { by rewrite Hnone, Hnone'. }
  destruct (decide (i < length close)%nat) as [Hin|Hout].
  - destruct (Hdef (i - Z.to_nat period)%nat) as (r & Hr & Hrsi); [lia|].
    destruct (Hdef' (i - Z.to_nat period)%nat) as (r' & Hr' & Hrsi'); [lia|].
    replace (Z.to_nat period + (i - Z.to_nat period))%nat with i in Hr, Hr' by lia.
    rewrite Hr, Hr'. do 2 f_equal.
    rewrite (_rsi_scale c _ _
               (wilder_avg (gains_of close) period (i - Z.to_nat period))
               (wilder_avg (losses_of close) period (i - Z.to_nat period)))
      in Hrsi' by (done || by apply wilder_avg_scale).
    rewrite Hrsi in Hrsi'. by injection Hrsi'.
  - rewrite !(proj2 (lookup_ge_None _ _)) by lia. done.
Qed.

End ExactScale.

(** X17 at a series in dollars and in cents. *)
Lemma rsi_scale_invariant_witness :
  (0 < 100)%Q /\ 1 <= 3 /\
  compute_rsi (H := exact_float sqrt6)
    ((fun x => @fmul Q (exact_float sqrt6) x 100%Q) <$> [1; 3; 2; 5; 4; 4; 7]%Q) 3
  = compute_rsi (H := exact_float sqrt6) [1; 3; 2; 5; 4; 4; 7]%Q 3.
Proof.
  split; [reflexivity|]. split; [lia|].
  apply (rsi_scale_invariant sqrt6 100%Q [1; 3; 2; 5; 4; 4; 7]%Q 3);
    [reflexivity|lia].
Defined.

(** ** A period of zero *)

Section ZeroPeriod.
Context {F : Type} `{PyFloat F}.

Lemma range_cons (a b : Z) : a < b -> range a b = a :: range (a + 1) b.
Proof.
  intros Hab. unfold range.
  replace (b - a) with (Z.succ (b - (a + 1))) by lia.
  rewrite seqZ_cons by lia. f_equal. f_equal; lia.
Qed.

(** X18: for every float carrier, no function of the module checks its
    period, and a period of zero ends in a division by zero: [_sma], [_ema]
    and [compute_bollinger_bands] raise ZeroDivisionError on every series,
    the empty one included, and [compute_rsi] raises it on every series that
    is not empty (on the empty series it returns the empty list). *)
Theorem zero_period_raises (values : list F) (std_dev : F) :
  _sma values 0 = Raise ZeroDivisionError /\
  _ema values 0 = Raise ZeroDivisionError /\
  compute_bollinger_bands values 0 std_dev = Raise ZeroDivisionError /\
  (values <> [] -> compute_rsi values 0 = Raise ZeroDivisionError) /\
  compute_rsi (@nil F) 0 = Ok [].
Proof.
  assert (0 <= len values) as Hlen by (unfold len; lia).
  split; [|split; [|split; [|split]]].
  - unfold _sma. rewrite (range_cons (0 - 1) (len values)) by lia. reflexivity.
  - unfold _ema. destruct (Z.ltb_spec (len values) 0) as [?|_]; [lia|]. reflexivity.
  - unfold compute_bollinger_bands.
    destruct (Z.ltb_spec (len values) 0) as [?|_]; [lia|].
    rewrite (range_cons (0 - 1) (len values)) by lia. reflexivity.
  - intros Hne. unfold compute_rsi.
    assert (1 <= len values) as Hpos.
    { unfold len. destruct values; [done|]. simpl. lia. }
    destruct (Z.ltb_spec (len values) (0 + 1)) as [?|_]; [lia|].
    rewrite gain_loss_loop. reflexivity.
  - reflexivity.
Qed.

End ZeroPeriod.

(** X18 at three closes. *)
Lemma zero_period_raises_witness :
  [1; 2; 3]%Q <> [] /\
  compute_rsi (H := exact_float sqrt6) [1; 2; 3]%Q 0 = Raise ZeroDivisionError.
Proof.
  split; [discriminate|].
  apply (zero_period_raises (H := exact_float sqrt6) [1; 2; 3]%Q 2%Q).
  discriminate.
Defined.

(** ** The MACD in binary64 *)

(** The engine on binary64 at the input of the test of [_ema]: an EMA of
    period three over 1, ..., 5 is 2, 3, 4. *)
Example ema_binary64 :
  _ema (H := binary64) (cents <$> [100; 200; 300; 400; 500]) 3
  = Ok (cents <$> [200; 300; 400]).
Proof. vm_compute. reflexivity. Qed.

(** Exact arithmetic at the history on which binary64 goes wrong: at index
    29 the signal is 0.0123 as well, and the histogram is 0.0078, the
    difference of the two reported values. *)
Example macd_exact_at_the_near_tie :
  (fun r => (Macd.macd r !! 29%nat, Macd.signal r !! 29%nat,
             Macd.histogram r !! 29%nat))
    <$> compute_macd (H := exact_float sqrt6)
          ((fun c => inject_Z c / 100)%Q <$>
             replicate 34 8863 ++
             [8862; 8860; 8856; 8857; 8861; 8854; 8852; 8858; 8856; 8856;
              8862; 8860; 8856; 8860; 8863; 8859; 8860; 8858; 8863; 8866;
              8867; 8860; 8865; 8866; 8866; 8865; 8867; 8870; 8868])
          12 26 9
  = Ok (Some (201 # 10000)%Q, Some (123 # 10000)%Q, Some (39 # 5000)%Q).
Proof. vm_compute. reflexivity. Qed.

(** C4 fails on the code.  On a history of 63 closes with two decimals, 34
    times 88.63 and then 29 closes between 88.52 and 88.70, [compute_macd]
    returns in binary64 three series of 30 values, and at index 29 they are
    macd 0.0201, signal 0.0123 and histogram 0.0077: the test
    [abs((m - s) - h) < 1e-6] is false there.  The signal line before
    rounding is the float just below 0.01235 (444955643184205 / 2^55,
    short of it by 1.3e-19) and is reported as 0.0123; the histogram is
    not the difference of the two values that are returned, it rounds the
    float difference of 0.0201 and the signal before rounding, and that
    difference is the float just below 0.00775. *)
Theorem macd_histogram_binary64 :
  exists r,
    compute_macd (H := binary64)
      (cents <$>
         replicate 34 8863 ++
         [8862; 8860; 8856; 8857; 8861; 8854; 8852; 8858; 8856; 8856;
          8862; 8860; 8856; 8860; 8863; 8859; 8860; 8858; 8863; 8866;
          8867; 8860; 8865; 8866; 8866; 8865; 8867; 8870; 8868])
      12 26 9 = Ok r /\
    length (Macd.macd r) = 30%nat /\
    length (Macd.signal r) = 30%nat /\
    length (Macd.histogram r) = 30%nat /\
    Macd.macd r !! 29%nat = Some (ten_thousandths 201) /\
    Macd.signal r !! 29%nat = Some (ten_thousandths 123) /\
    Macd.histogram r !! 29%nat = Some (ten_thousandths 77) /\
    PrimFloat.ltb
      (PrimFloat.abs
         (PrimFloat.sub
            (PrimFloat.sub (ten_thousandths 201) (ten_thousandths 123))
            (ten_thousandths 77)))
      (PrimFloat.div (b64_nearest 1) (b64_nearest 1000000))
    = false /\
    signal_line_of (H := binary64)
      (cents <$>
         replicate 34 8863 ++
         [8862; 8860; 8856; 8857; 8861; 8854; 8852; 8858; 8856; 8856;
          8862; 8860; 8856; 8860; 8863; 8859; 8860; 8858; 8863; 8866;
          8867; 8860; 8865; 8866; 8866; 8865; 8867; 8870; 8868]) !! 29%nat
    ≫= b64_value
    = Some (444955643184205 # 36028797018963968)%Q.
Proof.
  destruct (compute_macd (H := binary64) _ 12 26 9) as [r|e] eqn:Hr;
    [|vm_compute in Hr; discriminate Hr].
  exists r. split; [reflexivity|].
  vm_compute in Hr. injection Hr as <-.
  repeat split; vm_compute; reflexivity.
Qed.
